(** * Queue and dispatcher of the Messenger loader (index.js)

    A shallow embedding of [index.js]: the JSON queue file with its
    read-fresh / write-whole discipline, the three request handlers that
    mutate it, and the Puppeteer worker that drains the queued messages.

    Conventions of the embedding.
    - The file [queue.json] is a value of type [file]; its text is seen
      through an abstract JSON codec (class [JSON]).  [fs.writeFileSync]
      is taken to succeed; every call is counted in [writes].
    - The handlers and the worker are followed on files that hold a
      database or do not parse ([readDb]); what [readDb] does with text
      that parses to any other value is followed by [readDb_value].
    - Cycles of the worker may overlap, as [setInterval] lets them
      ([runs]); [reachable] keeps to the runs where they do not.
    - [uuidv4()], [new Date().toISOString()] and
      [Math.random().toString(36)] are readings of the environment and are
      passed to the code as arguments.
    - The browser is an abstract [world] driven through the operations of
      class [Puppeteer]; every awaited operation may reject.
    - Code that awaits runs in the state-and-exception monad [M]. *)

From Stdlib Require Import Ascii.
From stdpp Require Import gmap strings list fin_maps.

Local Open Scope string_scope.

(** ** Data model *)

(** [status: 'queued', // queued | sent | failed] *)
Inductive msg_status := queued | sent | failed.

Global Instance msg_status_eq_dec : EqDecision msg_status.
Proof. solve_decision. Defined.

(** One element of [db.messages].  [lastError] is [null] when [None];
    [sentAt] and [attemptedAt] are properties that do not exist on the
    object when [None]. *)
Record message := Message {
  id : string;
  toThreadId : string;
  text : string;
  senderName : option string;
  createdAt : string;
  status : msg_status;
  lastError : option string;
  sentAt : option string;
  attemptedAt : option string
}.

(** One value of the object [db.pairings], keyed by the pairing code:
    [{ createdAt }], the field being called [pairedAt] here to tell it
    from the [createdAt] of a message. *)
Record pairing := Pairing { pairedAt : string }.

Record db := Db {
  messages : list message;
  pairings : gmap string pairing
}.

(** [{ messages: [], pairings: {} }] *)
Definition empty_db : db := Db [] ∅.

(** ** The JSON codec and the queue file *)

(** [JSON.parse] throws on text that is not JSON ([None]); what
    [JSON.stringify] prints parses back to the same value.  Text that
    parses is taken to have the shape of a database, which is the only
    text the program writes. *)
Class JSON := {
  content : Type;
  JSON_parse : content → option db;
  JSON_stringify : db → content;
  JSON_roundtrip : ∀ d, JSON_parse (JSON_stringify d) = Some d
}.

Section Store.
Context `{JSON}.

(** [DB_FILE] on disk: not there, there but not readable, or readable. *)
Inductive file := Missing | Unreadable | Content (c : content).

Record filesystem := Filesystem {
  queue_json : file;
  writes : nat
}.

(** [fs.readFileSync(DB_FILE, 'utf8')]; [None] when it throws. *)
Definition readFileSync (fs : filesystem) : option content :=
  match queue_json fs with
  | Content c => Some c
  | Missing | Unreadable => None
  end.

(** [fs.writeFileSync(DB_FILE, c)] *)
Definition writeFileSync (c : content) (fs : filesystem) : filesystem :=
  {| queue_json := Content c; writes := S (writes fs) |}.

(** [fs.existsSync(DB_FILE)] *)
Definition existsSync (fs : filesystem) : bool :=
  match queue_json fs with
  | Missing => false
  | Unreadable | Content _ => true
  end.

(** [function readDb()]: the [try] is the two nested matches, the
    [catch] their [None] branches. *)
Definition readDb (fs : filesystem) : db :=
  match readFileSync fs with
  | Some c =>
      match JSON_parse c with
      | Some d => d
      | None => empty_db
      end
  | None => empty_db
  end.

(** [function writeDb(db)] *)
Definition writeDb (d : db) (fs : filesystem) : filesystem :=
  writeFileSync (JSON_stringify d) fs.

(** [if (!fs.existsSync(DB_FILE)) writeDb({ messages: [], pairings: {} })] *)
Definition startup (fs : filesystem) : filesystem :=
  if existsSync fs then fs else writeDb empty_db fs.

End Store.

(** ** What [JSON.parse] returns *)

(** The values of JSON, whole numbers standing for the numbers. *)
#[warnings="-register-all"]
Inductive json :=
| JNull
| JBool (b : bool)
| JNumber (n : Z)
| JString (s : string)
| JArray (items : list json)
| JObject (fields : list (string * json)).

(** The value [JSON.parse] returns: one in the shape of a database,
    given as the database it stands for, or any other value ([null],
    [42], [{}], ...). *)
Inductive parsed := Shaped (d : db) | Other (v : json).

(** [JSON.parse] without the assumption on the shape of the text.  The
    typed [JSON_parse] agrees with it on text that holds a database and
    on text that is not JSON; it says nothing right on other text. *)
Class JSON_values (J : JSON) := {
  JSON_parse_value : content → option parsed;
  JSON_parse_shaped : ∀ c d,
    JSON_parse_value c = Some (Shaped d) → JSON_parse c = Some d;
  JSON_parse_rejects : ∀ c,
    JSON_parse_value c = None → JSON_parse c = None
}.

(** [function readDb()] as it is written: whatever [JSON.parse]
    returns is returned, and the [catch] returns
    [{ messages: [], pairings: {} }]. *)
Definition readDb_value `{JSON_values} (fs : filesystem) : parsed :=
  match readFileSync fs with
  | Some c =>
      match JSON_parse_value c with
      | Some v => v
      | None => Shaped empty_db
      end
  | None => Shaped empty_db
  end.

(** ** Errors, the browser and the environment *)

(** A thrown [Error] object: its [name] and its [message]. *)
Record error := Error { err_name : string; err_message : string }.

(** [String(err)], that is [Error.prototype.toString]. *)
Definition String_of (e : error) : string :=
  if decide (err_message e = EmptyString) then err_name e
  else if decide (err_name e = EmptyString) then err_message e
  else err_name e ++ ": " ++ err_message e.

(** What an awaited call settles to. *)
Inductive outcome (A : Type) := Return (a : A) | Throw (e : error).
Arguments Return {A} a.
Arguments Throw {A} e.

(** The part of Puppeteer the worker calls.  Each operation takes the
    browser and the remote site from one [world] to the next. *)
Class Puppeteer := {
  world : Type;
  handle : Type;
  cookies : Type;
  (** [Buffer.from(cb, 'base64').toString('utf8')] then [JSON.parse] *)
  decode_cookies : string → outcome cookies;
  (** [puppeteerExtra.launch({ headless, args })] *)
  launch : bool → world → world * outcome unit;
  (** [browser.newPage()] *)
  newPage : world → world * outcome unit;
  (** [page.setUserAgent(ua)] *)
  setUserAgent : string → world → world * outcome unit;
  (** [page.setCookie(...cookies)] *)
  setCookie : cookies → world → world * outcome unit;
  (** [page.goto(url, { waitUntil: 'networkidle2', timeout: 60000 })] *)
  goto : string → world → world * outcome unit;
  (** [page.evaluate] of the probe for the navigation element *)
  evaluate_probe : world → world * outcome bool;
  (** [page.waitForTimeout(ms)] *)
  waitForTimeout : nat → world → world * outcome unit;
  (** [page.$(selector)]: an element handle or [null] *)
  query : string → world → world * outcome (option handle);
  (** [composer.focus()] *)
  focus : handle → world → world * outcome unit;
  (** [page.keyboard.type(text, { delay: 20 })] *)
  keyboard_type : string → world → world * outcome unit;
  (** [page.keyboard.press(key)] *)
  keyboard_press : string → world → world * outcome unit
}.

(** [process.env] as far as the worker reads it. *)
Record environment := Environment {
  COOKIES_BASE64 : option string;
  HEADLESS : option string
}.

(** What [logger] (pino) is asked to print. *)
Inductive log_entry :=
| InfoQueued (msg_id to : string)
| InfoCookiesLoaded
| ErrorCookies
| WarnGotoMessenger (e : error)
| InfoSending (threadUrl : string)
| InfoTyped
| WarnNotLoggedIn
| ErrorSendFailed (e : error) (msg_id : string)
| ErrorCycle (e : error).

(** [TypeError: Cannot read properties of null], raised by a call on
    [page] while it still is [null]. *)
Definition TypeError_null : error :=
  Error "TypeError" "Cannot read properties of null".

(** ** String operations of the pairing code *)

Fixpoint drop_chars (n : nat) (s : string) : string :=
  match n, s with
  | 0, _ => s
  | S n', String _ s' => drop_chars n' s'
  | S _, EmptyString => EmptyString
  end.

Fixpoint take_chars (n : nat) (s : string) : string :=
  match n, s with
  | 0, _ => EmptyString
  | S n', String c s' => String c (take_chars n' s')
  | S _, EmptyString => EmptyString
  end.

(** [s.slice(start, stop)] for indices that are not negative. *)
Definition slice (start stop : nat) (s : string) : string :=
  take_chars (stop - start) (drop_chars start s).

Definition upper_char (c : ascii) : ascii :=
  let n := nat_of_ascii c in
  if ((97 <=? n) && (n <=? 122))%nat then ascii_of_nat (n - 32) else c.

(** [s.toUpperCase()] on ASCII text. *)
Fixpoint toUpperCase (s : string) : string :=
  match s with
  | EmptyString => EmptyString
  | String c s' => String (upper_char c) (toUpperCase s')
  end.

Fixpoint all_chars (p : ascii → bool) (s : string) : bool :=
  match s with
  | EmptyString => true
  | String c s' => p c && all_chars p s'
  end.

(** A digit of radix 36 as [toString(36)] prints it: [0-9a-z]. *)
Definition is_digit36 (c : ascii) : bool :=
  let n := nat_of_ascii c in
  ((48 <=? n) && (n <=? 57) || (97 <=? n) && (n <=? 122))%nat.

(** A character of [0-9A-Z]. *)
Definition is_upper36 (c : ascii) : bool :=
  let n := nat_of_ascii c in
  ((48 <=? n) && (n <=? 57) || (65 <=? n) && (n <=? 90))%nat.

(** What [x.toString(36)] prints for a number [0 <= x < 1]: the text
    [0] for zero, otherwise [0.] and at least one digit of radix 36. *)
Definition radix36_fraction (r : string) : bool :=
  match r with
  | String "0" EmptyString => true
  | String "0" (String "." (String d ds)) =>
      is_digit36 d && all_chars is_digit36 ds
  | _ => false
  end.

(** [Math.random().toString(36).slice(2, 8).toUpperCase()], where [r]
    is [Math.random().toString(36)]. *)
Definition pairing_code (r : string) : string :=
  toUpperCase (slice 2 8 r).

(** ** Requests and responses *)

(** [req.body] of [POST /api/send]:
    [{ toThreadId: "...", text: "...", senderName?: "..." }];
    [None] is a property that is missing or [null]. *)
Record send_body := SendBody {
  req_toThreadId : option string;
  req_text : option string;
  req_senderName : option string
}.

(** [!v] for a string that may be missing. *)
Definition falsy (v : option string) : bool :=
  match v with
  | None => true
  | Some s => bool_decide (s = EmptyString)
  end.

(** [v || null] *)
Definition or_null (v : option string) : option string :=
  if falsy v then None else v.

Inductive response :=
| Status400 (error : string)
| JsonQueued (msg_id : string)
| JsonMessages (ms : list message)
| JsonCode (code : string)
| JsonOk.

Section Server.
Context `{JSON} `{Puppeteer}.
Variable env : environment.

(** ** Process state and the monad of awaiting code *)

(** The module-level variables [browser] and [page] ([true] once
    assigned), the file system, the world behind the browser and the
    lines logged so far. *)
Record sys := Sys {
  disk : filesystem;
  browser : bool;
  page : bool;
  web : world;
  log : list log_entry
}.

Definition M (A : Type) : Type := sys → sys * outcome A.

Definition ret {A} (a : A) : M A := λ s, (s, Return a).
Definition throw {A} (e : error) : M A := λ s, (s, Throw e).

Definition bind {A B} (m : M A) (k : A → M B) : M B := λ s,
  match m s with
  | (s', Return a) => k a s'
  | (s', Throw e) => (s', Throw e)
  end.

(** [try { m } catch (e) { h e }], and [m.catch(h)] on a promise. *)
Definition try_catch {A} (m : M A) (h : error → M A) : M A := λ s,
  match m s with
  | (s', Return a) => (s', Return a)
  | (s', Throw e) => h e s'
  end.

Notation "'let*' x ':=' m 'in' k" := (bind m (λ x, k))
  (at level 10, x binder, m at level 100, k at level 200).
Notation "'do' m 'then' k" := (bind m (λ _, k))
  (at level 10, m at level 100, k at level 200).

Definition logger (l : log_entry) : M unit := λ s,
  (Sys (disk s) (browser s) (page s) (web s) (log s ++ [l]), Return tt).

Definition set_browser : M unit := λ s,
  (Sys (disk s) true (page s) (web s) (log s), Return tt).

Definition set_page : M unit := λ s,
  (Sys (disk s) (browser s) true (web s) (log s), Return tt).

Definition get_browser : M bool := λ s, (s, Return (browser s)).

(** An awaited call on the [browser] object. *)
Definition on_browser {A} (op : world → world * outcome A) : M A := λ s,
  let '(w, r) := op (web s) in
  (Sys (disk s) (browser s) (page s) w (log s), r).

(** An awaited call on [page]: a [TypeError] while [page] is [null]. *)
Definition on_page {A} (op : world → world * outcome A) : M A := λ s,
  if page s then on_browser op s else (s, Throw TypeError_null).

(** [readDb()] and [writeDb(db)] inside awaiting code. *)
Definition read_db : M db := λ s, (s, Return (readDb (disk s))).

Definition write_db (d : db) : M unit := λ s,
  (Sys (writeDb d (disk s)) (browser s) (page s) (web s) (log s), Return tt).

(** A synchronous expression that may throw. *)
Definition settle {A} (r : outcome A) : M A := λ s, (s, r).

(** ** The Puppeteer worker *)

(** [async function loadCookiesFromEnv(page)] *)
Definition loadCookiesFromEnv : M bool :=
  match COOKIES_BASE64 env with
  | None => ret false
  | Some cb =>
      if decide (cb = EmptyString) then ret false
      else
        try_catch
          (let* cookies := settle (decode_cookies cb) in
           do on_page (setCookie cookies) then
           do logger InfoCookiesLoaded then
           ret true)
          (λ e, do logger ErrorCookies then ret false)
  end.

Definition userAgent : string :=
  "Mozilla/5.0 (X11; Linux x86_64) AppleWebKit/537.36 (KHTML, like Gecko) Chrome/120 Safari/537.36".

(** [async function ensureBrowser()] *)
Definition ensureBrowser : M unit :=
  let* b := get_browser in
  if b then ret tt
  else
    do on_browser
         (launch (negb (bool_decide (HEADLESS env = Some "false")))) then
    do set_browser then
    do on_browser newPage then
    do set_page then
    do on_page (setUserAgent userAgent) then
    let* loaded := loadCookiesFromEnv in
    do try_catch (on_page (goto "https://www.messenger.com/"))
         (λ e, logger (WarnGotoMessenger e)) then
    ret tt.

(** The double quote inside the CSS selectors. *)
Definition dq : string := String "034"%char EmptyString.

Definition selectors : list string :=
  [ "div[contenteditable=" ++ dq ++ "true" ++ dq ++ "][role=" ++ dq
      ++ "textbox" ++ dq ++ "]";
    "div[aria-label=" ++ dq ++ "Message" ++ dq ++ "]";
    "div.notranslate[contenteditable=" ++ dq ++ "true" ++ dq ++ "]" ].

(** [for (const s of selectors) { try { composer = await page.$(s);
    if (composer) break; } catch (e) {} }] *)
Fixpoint find_composer (sels : list string) : M (option handle) :=
  match sels with
  | [] => ret None
  | s :: rest =>
      let* composer := try_catch (on_page (query s)) (λ _, ret None) in
      match composer with
      | Some c => ret (Some c)
      | None => find_composer rest
      end
  end.

(** [async function sendMessageToThread(toThreadId, text)] *)
Definition sendMessageToThread (toThreadId text : string) : M bool :=
  let threadUrl := "https://www.messenger.com/t/" ++ toThreadId in
  do logger (InfoSending threadUrl) then
  do on_page (goto threadUrl) then
  do on_page (waitForTimeout 1500) then
  let* composer := find_composer selectors in
  match composer with
  | None => throw (Error "Error" "Composer not found on thread page")
  | Some c =>
      do on_browser (focus c) then
      do on_page (keyboard_type text) then
      do on_page (keyboard_press "Enter") then
      do on_page (waitForTimeout 1200) then
      do logger InfoTyped then
      ret true
  end.

(** [target.status = 'sent'; target.sentAt = new Date().toISOString()] *)
Definition mark_sent (now : string) (target : message) : message :=
  {| id := id target; toThreadId := toThreadId target;
     text := text target; senderName := senderName target;
     createdAt := createdAt target; status := sent;
     lastError := lastError target; sentAt := Some now;
     attemptedAt := attemptedAt target |}.

(** [(err && err.message) ? err.message : String(err)] *)
Definition describe (err : error) : string :=
  if decide (err_message err = EmptyString) then String_of err
  else err_message err.

(** [target.status = 'failed'; target.lastError = ...;
    target.attemptedAt = new Date().toISOString()] *)
Definition mark_failed (err : error) (now : string) (target : message)
  : message :=
  {| id := id target; toThreadId := toThreadId target;
     text := text target; senderName := senderName target;
     createdAt := createdAt target; status := failed;
     lastError := Some (describe err); sentAt := sentAt target;
     attemptedAt := Some now |}.

(** [const db2 = readDb();
    const target = db2.messages.find(m => m.id === msg.id);
    if (target) { <change target>; writeDb(db2); }] *)
Definition write_back (change : message → message) (msg_id : string)
  : M unit :=
  let* db2 := read_db in
  match list_find (λ m, id m = msg_id) (messages db2) with
  | Some (i, target) =>
      write_db (Db (<[i := change target]> (messages db2)) (pairings db2))
  | None => ret tt
  end.

(** The body of [for (const msg of queued)]; [now] is what
    [new Date()] reads at the write-back. *)
Definition attempt (now : string) (msg : message) : M unit :=
  try_catch
    (do sendMessageToThread (toThreadId msg) (text msg) then
     write_back (mark_sent now) (id msg))
    (λ err,
       do logger (ErrorSendFailed err (id msg)) then
       write_back (mark_failed err now) (id msg)).

(** [for (const msg of queued) { ... }]; the iteration numbered [k]
    reads [clock k]. *)
Fixpoint for_each (clock : nat → string) (k : nat) (queued : list message)
  : M unit :=
  match queued with
  | [] => ret tt
  | msg :: rest =>
      do attempt (clock k) msg then for_each clock (S k) rest
  end.

(** Where [processQueueOnce] leaves: the [return] of line 162, the
    [return] of line 173, the end of the loop, or the outer [catch]. *)
Inductive exit :=
| NothingQueued
| NotLoggedIn
| Drained
| Caught (e : error).

(** [const isLoggedIn = await page.evaluate(...).catch(() => false)] *)
Definition probe_login : M bool := λ s,
  if page s then try_catch (on_browser evaluate_probe) (λ _, ret false) s
  else (s, Throw TypeError_null).

(** [async function processQueueOnce()] *)
Definition processQueueOnce (clock : nat → string) : M exit :=
  try_catch
    (let* db := read_db in
     let queued := filter (λ m, status m = queued) (messages db) in
     if decide (length queued = 0) then ret NothingQueued
     else
       do ensureBrowser then
       let* isLoggedIn := probe_login in
       if negb isLoggedIn then
         do logger WarnNotLoggedIn then ret NotLoggedIn
       else
         do for_each clock 0 queued then ret Drained)
    (λ e, do logger (ErrorCycle e) then ret (Caught e)).

(** The code of [processQueueOnce] up to the [for] loop: it leaves
    with an [exit], or reaches the loop with the list [queued]. *)
Definition prologue : M (exit + list message) :=
  try_catch
    (let* db := read_db in
     let queued := filter (λ m, status m = queued) (messages db) in
     if decide (length queued = 0) then ret (inl NothingQueued)
     else
       do ensureBrowser then
       let* isLoggedIn := probe_login in
       if negb isLoggedIn then
         do logger WarnNotLoggedIn then ret (inl NotLoggedIn)
       else ret (inr queued))
    (λ e, do logger (ErrorCycle e) then ret (inl (Caught e))).

(** ** The request handlers *)

(** [app.post('/api/send', ...)]; [uuid] is what [uuidv4()] returns and
    [now] what [new Date().toISOString()] returns. *)
Definition api_send (body : send_body) (uuid now : string) : M response :=
  let to := req_toThreadId body in
  let txt := req_text body in
  if falsy to || falsy txt then
    ret (Status400 "toThreadId and text required")
  else
    let* db := read_db in
    let item :=
      {| id := uuid;
         toThreadId := default EmptyString to;
         text := default EmptyString txt;
         senderName := or_null (req_senderName body);
         createdAt := now;
         status := queued;
         lastError := None;
         sentAt := None;
         attemptedAt := None |} in
    do write_db (Db (messages db ++ [item]) (pairings db)) then
    do logger (InfoQueued (id item) (toThreadId item)) then
    ret (JsonQueued (id item)).

(** [app.get('/api/queue', ...)] *)
Definition api_queue : M response :=
  let* db := read_db in
  ret (JsonMessages (messages db)).

(** [app.post('/api/pair', ...)]; [r] is [Math.random().toString(36)]. *)
Definition api_pair (r now : string) : M response :=
  let code := pairing_code r in
  let* db := read_db in
  do write_db (Db (messages db) (<[code := Pairing now]> (pairings db))) then
  ret (JsonCode code).

(** [app.post('/api/clear-queue', ...)] *)
Definition api_clear : M response :=
  let* db := read_db in
  do write_db (Db [] (pairings db)) then
  ret JsonOk.

(** ** The process as a transition system *)

(** Requests are served while a cycle awaits the browser, and
    [setInterval] starts [processQueueOnce] again whether or not the
    previous call has returned.  A node is the process state, for every
    cycle started so far the messages it has yet to attempt, and the
    identifiers [uuidv4] has handed out. *)
Record node := Node {
  proc : sys;
  cycles : list (list message);
  issued : gset string
}.

(** The requests, the timer starting a cycle ([Tick]), and cycle
    number [k] getting through the delivery and the write-back of its
    next message ([Resume k]). *)
Inductive event :=
| PostSend (body : send_body) (uuid now : string)
| PostPair (r now : string)
| PostClear
| GetQueue
| Tick
| Resume (k : nat) (now : string).

Definition exec (e : event) (n : node) : node :=
  match e with
  | PostSend body uuid now =>
      Node (api_send body uuid now (proc n)).1 (cycles n)
        ({[uuid]} ∪ issued n)
  | PostPair r now =>
      Node (api_pair r now (proc n)).1 (cycles n) (issued n)
  | PostClear => Node (api_clear (proc n)).1 (cycles n) (issued n)
  | GetQueue => Node (api_queue (proc n)).1 (cycles n) (issued n)
  | Tick =>
      match prologue (proc n) with
      | (s, Return (inr snapshot)) =>
          Node s (cycles n ++ [snapshot]) (issued n)
      | (s, _) => Node s (cycles n) (issued n)
      end
  | Resume k now =>
      match cycles n !! k with
      | Some (msg :: rest) =>
          Node (attempt now msg (proc n)).1 (<[k := rest]> (cycles n))
            (issued n)
      | Some [] | None => n
      end
  end.

(** The messages that cycles under way have yet to attempt. *)
Definition pending (n : node) : list message := concat (cycles n).

(** The events of the runs in which cycles do not overlap: [uuidv4]
    does not repeat an identifier, and the timer does not start a cycle
    while an earlier one still has messages to attempt.  The program
    itself does nothing to keep the timer from doing so. *)
Definition allowed (e : event) (n : node) : Prop :=
  match e with
  | PostSend _ uuid _ => uuid ∉ issued n
  | Tick => pending n = []
  | _ => True
  end.

(** The nodes the process gets to from an empty queue when no cycle
    starts inside another. *)
Inductive reachable : node → Prop :=
| reachable_start s :
    messages (readDb (disk s)) = [] → reachable (Node s [] ∅)
| reachable_exec e n :
    reachable n → allowed e n → reachable (exec e n).

(** What [uuidv4] alone guarantees. *)
Definition fresh_id (e : event) (n : node) : Prop :=
  match e with
  | PostSend _ uuid _ => uuid ∉ issued n
  | _ => True
  end.

(** The nodes the process gets to from an empty queue: [setInterval]
    starts a cycle every period, whether or not the cycles before it
    have returned. *)
Inductive runs : node → Prop :=
| runs_start s :
    messages (readDb (disk s)) = [] → runs (Node s [] ∅)
| runs_exec e n :
    runs n → fresh_id e n → runs (exec e n).

(** The events of [tr], one after the other. *)
Fixpoint run (tr : list event) (n : node) : node :=
  match tr with
  | [] => n
  | e :: tr' => run tr' (exec e n)
  end.

(** Cycle number [k] getting through [fuel] messages one after the
    other, the first at time [clock i]. *)
Fixpoint resumes (clock : nat → string) (k i fuel : nat) (n : node) : node :=
  match fuel with
  | 0 => n
  | S fuel' => resumes clock k (S i) fuel' (exec (Resume k (clock i)) n)
  end.

(** ** Predicates used by the properties *)

(** [m] moves every state along [R]. *)
Definition keeps (R : sys → sys → Prop) {A} (m : M A) : Prop :=
  ∀ s, R s (m s).1.

(** The file system is the same: same file, same number of writes. *)
Definition same_disk (s s' : sys) : Prop := disk s' = disk s.

Definition is_sending (l : log_entry) : bool :=
  match l with
  | InfoSending _ => true
  | _ => false
  end.

(** Between [s] and [s'] the log only grew, by lines other than the
    [Sending message] line that opens every delivery. *)
Definition no_delivery (s s' : sys) : Prop :=
  ∃ l, log s' = (log s ++ l)%list ∧ forallb (λ e, negb (is_sending e)) l = true.

(** A value that is missing, [null] or the empty string. *)
Definition empty (v : option string) : Prop :=
  v = None ∨ v = Some EmptyString.

(** The fields a record has in each status. *)
Definition record_ok (m : message) : Prop :=
  match status m with
  | queued => lastError m = None ∧ sentAt m = None ∧ attemptedAt m = None
  | sent =>
      lastError m = None ∧ is_Some (sentAt m) ∧ attemptedAt m = None
  | failed =>
      is_Some (lastError m) ∧ sentAt m = None ∧ is_Some (attemptedAt m)
  end.

(** Exactly one of [sentAt] and [attemptedAt] once the status is not
    [queued]; neither while it is. *)
Definition stamps_ok (m : message) : Prop :=
  match status m with
  | queued => sentAt m = None ∧ attemptedAt m = None
  | sent | failed =>
      (is_Some (sentAt m) ∧ attemptedAt m = None)
      ∨ (sentAt m = None ∧ is_Some (attemptedAt m))
  end.


(** What [write_back change msg_id] leaves in the database. *)
Definition written_back (change : message → message) (msg_id : string)
  (d : db) : db :=
  match list_find (λ m, id m = msg_id) (messages d) with
  | Some (i, target) =>
      Db (<[i := change target]> (messages d)) (pairings d)
  | None => d
  end.

(** [change] applied to every record named [msg_id]. *)
Definition change_named (change : message → message) (msg_id : string)
  (m : message) : message :=
  if decide (id m = msg_id) then change m else m.

(** The session is not available: [ensureBrowser] rejects with [err],
    or the call on [page] that probes the login throws [err]; [s1] is
    the state at that point. *)
Definition session_unavailable (s : sys) (err : error) (s1 : sys) : Prop :=
  ensureBrowser s = (s1, Throw err)
  ∨ ∃ s0, ensureBrowser s = (s0, Return tt) ∧ probe_login s0 = (s1, Throw err).

(** The records of [d] that a cycle starting now would attempt. *)
Definition queued_now (d : db) : list message :=
  filter (λ m, status m = queued) (messages d).

(** The store [msgs], the messages [q] the running cycle has yet to
    attempt and the identifiers [X] handed out fit together: the store is
    well formed and uses identifiers of [X] only, and every message of [q]
    has an identifier of [X] that no other message of [q] has and that in
    the store, if it is there at all, names a queued record. *)
Definition coherent (msgs q : list message) (X : gset string) : Prop :=
  (NoDup (id <$> msgs) ∧ Forall record_ok msgs)
  ∧ (∀ m, m ∈ msgs → id m ∈ X)
  ∧ NoDup (id <$> q)
  ∧ (∀ p, p ∈ q →
       id p ∈ X ∧ ∀ m, m ∈ msgs → id m = id p → status m = queued).

(** The invariant of the transition system. *)
Definition node_ok (n : node) : Prop :=
  coherent (messages (readDb (disk (proc n)))) (pending n) (issued n).

(** ** The worker's timer *)

(** The process around the worker: the module-level [workerRunning],
    the periods handed to [setInterval] so far, and the periods that
    the line [Worker started, checking queue every %d ms] was logged
    with. *)
Record worker := Worker {
  core : sys;
  workerRunning : bool;
  intervals : list nat;
  started : list nat
}.

(** [async function startWorker()], with the value of
    [CHECK_INTERVAL_MS] as an argument; the [Throw] branch is a
    rejection of the awaited [processQueueOnce()]. *)
Definition startWorker (CHECK_INTERVAL_MS : nat) (clock : nat → string)
  (w : worker) : worker * outcome unit :=
  if workerRunning w then (w, Return tt)
  else
    let announced := (started w ++ [CHECK_INTERVAL_MS])%list in
    match processQueueOnce clock (core w) with
    | (s, Return _) =>
        (Worker s true (intervals w ++ [CHECK_INTERVAL_MS])%list announced,
         Return tt)
    | (s, Throw e) => (Worker s true (intervals w) announced, Throw e)
    end.

(** ** More predicates *)

(** The fields of a record that no write-back assigns. *)
Definition same_letter (m m' : message) : Prop :=
  id m' = id m
  ∧ toThreadId m' = toThreadId m
  ∧ text m' = text m
  ∧ senderName m' = senderName m
  ∧ createdAt m' = createdAt m.

(** The variables [browser] and [page] are as they were. *)
Definition same_handles (s s' : sys) : Prop :=
  browser s' = browser s ∧ page s' = page s.

(** The thread URLs of the [Sending message] lines of a log, in the
    order they were logged. *)
Fixpoint sending_urls (l : list log_entry) : list string :=
  match l with
  | [] => []
  | InfoSending url :: l' => url :: sending_urls l'
  | _ :: l' => sending_urls l'
  end.

(** [`https://www.messenger.com/t/${toThreadId}`] for a message. *)
Definition threadUrl_of (m : message) : string :=
  "https://www.messenger.com/t/" ++ toThreadId m.

(** The error [sendMessageToThread] throws itself. *)
Definition no_composer : error :=
  Error "Error" "Composer not found on thread page".

(** The lower-case letter of an upper-case one. *)
Definition lower_char (c : ascii) : ascii :=
  let n := nat_of_ascii c in
  if ((65 <=? n) && (n <=? 90))%nat then ascii_of_nat (n + 32) else c.

(** The digits after [0.] in what [toString(36)] printed. *)
Definition fraction_digits (r : string) : string := drop_chars 2 r.

End Server.

Arguments Sys {_ _} _ _ _ _ _.
Arguments Node {_ _} _ _ _.

(** ** A scripted environment for the examples *)

(** A codec whose file text is the value itself; [None] stands for text
    that [JSON.parse] rejects. *)
Definition plain_json : JSON :=
  {| content := option db;
     JSON_parse := λ c, c;
     JSON_stringify := Some;
     JSON_roundtrip := λ d, eq_refl |}.

(** A browser that follows a script fixed in advance. *)
Record script := Script {
  launches : bool;
  logged_in : bool;
  composer_found : bool
}.

Definition launch_failure : error :=
  Error "Error" "Failed to launch the browser process".

Definition scripted : Puppeteer :=
  {| world := script;
     handle := unit;
     cookies := unit;
     decode_cookies := λ _, Return tt;
     launch := λ _ w,
       (w, if launches w then Return tt else Throw launch_failure);
     newPage := λ w, (w, Return tt);
     setUserAgent := λ _ w, (w, Return tt);
     setCookie := λ _ w, (w, Return tt);
     goto := λ _ w, (w, Return tt);
     evaluate_probe := λ w, (w, Return (logged_in w));
     waitForTimeout := λ _ w, (w, Return tt);
     query := λ _ w, (w, Return (if composer_found w then Some tt else None));
     focus := λ _ w, (w, Return tt);
     keyboard_type := λ _ w, (w, Return tt);
     keyboard_press := λ _ w, (w, Return tt) |}.

Definition no_env : environment := Environment None None.

(** A disk that holds database [d]. *)
Definition disk_with (d : db) : @filesystem plain_json :=
  @Filesystem plain_json (@Content plain_json (Some d)) 0.

(** A process that has not opened its browser yet. *)
Definition fresh_process (d : db) (w : script) : @sys plain_json scripted :=
  @Sys plain_json scripted (disk_with d) false false w [].

(** A process whose queue file holds the empty database. *)
Definition blank : @sys plain_json scripted :=
  fresh_process empty_db (Script true true true).

Definition hello : message :=
  Message "id-1" "12345" "hello" None "2024-01-01T00:00:00.000Z"
    queued None None None.

Definition hello_db : db := Db [hello] ∅.

Definition noon (k : nat) : string := "2024-01-01T12:00:00.000Z".

(** A record that was delivered earlier. *)
Definition delivered : message :=
  Message "id-0" "12345" "first" None "2024-01-01T00:00:00.000Z"
    sent None (Some "2024-01-01T00:00:15.000Z") None.

Definition mixed_db : db := Db [delivered; hello] ∅.

(** Two calls of [POST /api/pair] that draw the same random number. *)
Definition paired_once : @sys plain_json scripted :=
  (api_pair "0.i" "2024-01-01T00:00:00.000Z" blank).1.

Definition paired_twice : @sys plain_json scripted :=
  (api_pair "0.i" "2024-06-01T00:00:00.000Z" paired_once).1.

(** A browser whose pages do not open or do not load, as its two
    flags say. *)
Record faults := Faults {
  page_opens : bool;
  page_loads : bool
}.

Definition no_page : error := Error "Error" "Target closed".

Definition net_down : error :=
  Error "Error" "net::ERR_INTERNET_DISCONNECTED".

Definition faulty : Puppeteer :=
  {| world := faults;
     handle := unit;
     cookies := unit;
     decode_cookies := λ _, Throw (Error "SyntaxError" "Unexpected token");
     launch := λ _ w, (w, Return tt);
     newPage := λ w, (w, if page_opens w then Return tt else Throw no_page);
     setUserAgent := λ _ w, (w, Return tt);
     setCookie := λ _ w, (w, Return tt);
     goto := λ _ w, (w, if page_loads w then Return tt else Throw net_down);
     evaluate_probe := λ w,
       (w, if page_loads w then Return true else Throw net_down);
     waitForTimeout := λ _ w, (w, Return tt);
     query := λ _ w, (w, Return None);
     focus := λ _ w, (w, Return tt);
     keyboard_type := λ _ w, (w, Return tt);
     keyboard_press := λ _ w, (w, Return tt) |}.

(** An environment that sets [COOKIES_BASE64]. *)
Definition cookie_env : environment :=
  Environment (Some "bm90IGpzb24=") None.

(** A process on the faulty browser whose queue file holds [d]. *)
Definition faulty_process (d : db) (w : faults) : @sys plain_json faulty :=
  @Sys plain_json faulty (disk_with d) false false w [].

(** A process whose queue file holds text that is not JSON. *)
Definition broken : @sys plain_json scripted :=
  @Sys plain_json scripted
    (@Filesystem plain_json (@Content plain_json None) 0)
    false false (Script true true true) [].

(** A process whose browser and page are open. *)
Definition open_process (d : db) (w : script) (l : list log_entry)
  : @sys plain_json scripted :=
  @Sys plain_json scripted (disk_with d) true true w l.

Definition hello_body : send_body :=
  SendBody (Some "12345") (Some "hello") None.

(** A store where everything was dealt with. *)
Definition settled_db : db := Db [delivered] ∅.

(** The process before [startWorker] is called. *)
Definition idle_worker : @worker plain_json scripted :=
  @Worker plain_json scripted (fresh_process hello_db (Script true true true))
    false [] [].

(** A message is submitted, a cycle starts, the queue is cleared while
    the cycle delivers, and the cycle writes back. *)
Definition submitted : @node plain_json scripted :=
  exec no_env
    (PostSend (SendBody (Some "12345") (Some "hello") None) "id-1"
       "2024-01-01T00:00:00.000Z")
    (Node blank [] ∅).

Definition cleared_under_way : @node plain_json scripted :=
  exec no_env (Resume 0 "2024-01-01T12:00:00.000Z")
    (exec no_env PostClear (exec no_env Tick submitted)).

Definition delivered_in_turn : @node plain_json scripted :=
  exec no_env (Resume 0 "2024-01-01T12:00:00.000Z")
    (exec no_env Tick submitted).

(** A browser whose thread pages show the composer or not as a list
    fixed in advance says, one answer for every [page.$]; once the
    list is used up the composer is not there. *)
Definition flaky : Puppeteer :=
  {| world := list bool;
     handle := unit;
     cookies := unit;
     decode_cookies := λ _, Return tt;
     launch := λ _ w, (w, Return tt);
     newPage := λ w, (w, Return tt);
     setUserAgent := λ _ w, (w, Return tt);
     setCookie := λ _ w, (w, Return tt);
     goto := λ _ w, (w, Return tt);
     evaluate_probe := λ w, (w, Return true);
     waitForTimeout := λ _ w, (w, Return tt);
     query := λ _ w,
       match w with
       | [] => (w, Return None)
       | found :: w' => (w', Return (if found then Some tt else None))
       end;
     focus := λ _ w, (w, Return tt);
     keyboard_type := λ _ w, (w, Return tt);
     keyboard_press := λ _ w, (w, Return tt) |}.

(** One message is submitted and the timer fires twice before the
    first cycle has attempted it: both cycles hold the message. *)
Definition two_cycles (w : list bool) : @node plain_json flaky :=
  exec no_env Tick
    (exec no_env Tick
       (exec no_env (PostSend hello_body "id-1" "2024-01-01T00:00:00.000Z")
          (Node (@Sys plain_json flaky (disk_with empty_db) false false w [])
             [] ∅))).

(** The first cycle delivers the message; the second one then finds no
    composer. *)
Definition sent_by_first : @node plain_json flaky :=
  exec no_env (Resume 0 "2024-01-01T12:00:00.000Z") (two_cycles [true]).

Definition failed_by_second : @node plain_json flaky :=
  exec no_env (Resume 1 "2024-01-01T12:00:05.000Z") sent_by_first.



(** A codec whose file text is the value [JSON.parse] returns for it;
    [None] stands for text that [JSON.parse] rejects. *)
Definition loose_json : JSON :=
  {| content := option parsed;
     JSON_parse := λ c,
       match c with
       | Some (Shaped d) => Some d
       | _ => None
       end;
     JSON_stringify := λ d, Some (Shaped d);
     JSON_roundtrip := λ d, eq_refl |}.

Definition loose_values : JSON_values loose_json.
Proof.
  refine {| JSON_parse_value := λ c : @content loose_json, c |}.
  - by intros c d ->.
  - by intros c ->.
Defined.

(** A queue file that holds the text [null]. *)
Definition null_file : @filesystem loose_json :=
  @Filesystem loose_json (@Content loose_json (Some (Other JNull))) 0.

(** * Properties *)

Section Properties.
Context `{JSON} `{Puppeteer}.
Variable env : environment.

Lemma readDb_writeDb d fs : readDb (writeDb d fs) = d.
Proof. unfold readDb, writeDb; simpl. by rewrite JSON_roundtrip. Qed.

Lemma writes_writeDb d fs : writes (writeDb d fs) = S (writes fs).
Proof. reflexivity. Qed.

(** Creating the file when the process starts does not change what
    [readDb] returns, and a file that was missing holds no message. *)
Lemma readDb_startup fs : readDb (startup fs) = readDb fs.
Proof.
  unfold startup, existsSync.
  destruct (queue_json fs) eqn:E; try done.
  rewrite readDb_writeDb. unfold readDb, readFileSync. by rewrite E.
Qed.

Lemma startup_missing fs :
  queue_json fs = Missing → readDb (startup fs) = empty_db.
Proof.
  intros E. rewrite readDb_startup. unfold readDb, readFileSync.
  by rewrite E.
Qed.

(** ** Combinators of [M] and relations on states *)

Section Frame.
Variable R : sys → sys → Prop.
Hypothesis R_refl : ∀ s, R s s.
Hypothesis R_trans : ∀ s1 s2 s3, R s1 s2 → R s2 s3 → R s1 s3.

Lemma keeps_ret {A} (a : A) : keeps R (ret a).
Proof. intros s. apply R_refl. Qed.

Lemma keeps_throw {A} (e : error) : keeps R (@throw _ _ A e).
Proof. intros s. apply R_refl. Qed.

Lemma keeps_settle {A} (r : outcome A) : keeps R (settle r).
Proof. intros s. apply R_refl. Qed.

Lemma keeps_get_browser : keeps R get_browser.
Proof. intros s. apply R_refl. Qed.

Lemma keeps_read_db : keeps R read_db.
Proof. intros s. apply R_refl. Qed.

Lemma keeps_bind {A B} (m : M A) (k : A → M B) :
  keeps R m → (∀ a, keeps R (k a)) → keeps R (bind m k).
Proof.
  intros Hm Hk s. unfold bind. specialize (Hm s).
  destruct (m s) as [s1 [a|e]]; simpl in *; [|done].
  eapply R_trans; [exact Hm | apply Hk].
Qed.

Lemma keeps_try_catch {A} (m : M A) (h : error → M A) :
  keeps R m → (∀ e, keeps R (h e)) → keeps R (try_catch m h).
Proof.
  intros Hm Hh s. unfold try_catch. specialize (Hm s).
  destruct (m s) as [s1 [a|e]]; simpl in *; [done|].
  eapply R_trans; [exact Hm | apply Hh].
Qed.

End Frame.

Lemma same_disk_refl s : same_disk s s.
Proof. reflexivity. Qed.

Lemma same_disk_trans s1 s2 s3 :
  same_disk s1 s2 → same_disk s2 s3 → same_disk s1 s3.
Proof. unfold same_disk. congruence. Qed.

Lemma no_delivery_refl s : no_delivery s s.
Proof. exists []. by rewrite app_nil_r. Qed.

Lemma no_delivery_trans s1 s2 s3 :
  no_delivery s1 s2 → no_delivery s2 s3 → no_delivery s1 s3.
Proof.
  intros (l1 & E1 & Q1) (l2 & E2 & Q2). exists (l1 ++ l2)%list. split.
  - by rewrite E2, E1, app_assoc.
  - by rewrite forallb_app, Q1, Q2.
Qed.

Create HintDb keeps.

Lemma same_disk_bind {A B} (m : M A) (k : A → M B) :
  keeps same_disk m → (∀ a, keeps same_disk (k a)) →
  keeps same_disk (bind m k).
Proof. apply keeps_bind, same_disk_trans. Qed.

Lemma same_disk_try_catch {A} (m : M A) (h : error → M A) :
  keeps same_disk m → (∀ e, keeps same_disk (h e)) →
  keeps same_disk (try_catch m h).
Proof. apply keeps_try_catch, same_disk_trans. Qed.

Lemma no_delivery_bind {A B} (m : M A) (k : A → M B) :
  keeps no_delivery m → (∀ a, keeps no_delivery (k a)) →
  keeps no_delivery (bind m k).
Proof. apply keeps_bind, no_delivery_trans. Qed.

Lemma no_delivery_try_catch {A} (m : M A) (h : error → M A) :
  keeps no_delivery m → (∀ e, keeps no_delivery (h e)) →
  keeps no_delivery (try_catch m h).
Proof. apply keeps_try_catch, no_delivery_trans. Qed.

Lemma same_disk_pure {A} (m : M A) :
  (∀ s, (m s).1 = s) → keeps same_disk m.
Proof. intros E s. by rewrite E. Qed.

Lemma no_delivery_pure {A} (m : M A) :
  (∀ s, (m s).1 = s) → keeps no_delivery m.
Proof. intros E s. rewrite E. apply no_delivery_refl. Qed.

Lemma same_disk_ret {A} (a : A) : keeps same_disk (ret a).
Proof. by apply same_disk_pure. Qed.

Lemma same_disk_throw {A} e : keeps same_disk (@throw _ _ A e).
Proof. by apply same_disk_pure. Qed.

Lemma same_disk_settle {A} (r : outcome A) : keeps same_disk (settle r).
Proof. by apply same_disk_pure. Qed.

Lemma same_disk_get_browser : keeps same_disk get_browser.
Proof. by apply same_disk_pure. Qed.

Lemma same_disk_read_db : keeps same_disk read_db.
Proof. by apply same_disk_pure. Qed.

Lemma no_delivery_ret {A} (a : A) : keeps no_delivery (ret a).
Proof. by apply no_delivery_pure. Qed.

Lemma no_delivery_throw {A} e : keeps no_delivery (@throw _ _ A e).
Proof. by apply no_delivery_pure. Qed.

Lemma no_delivery_settle {A} (r : outcome A) : keeps no_delivery (settle r).
Proof. by apply no_delivery_pure. Qed.

Lemma no_delivery_get_browser : keeps no_delivery get_browser.
Proof. by apply no_delivery_pure. Qed.

Lemma no_delivery_read_db : keeps no_delivery read_db.
Proof. by apply no_delivery_pure. Qed.

Hint Resolve same_disk_bind same_disk_try_catch no_delivery_bind
  no_delivery_try_catch same_disk_ret same_disk_throw same_disk_settle
  same_disk_get_browser same_disk_read_db no_delivery_ret
  no_delivery_throw no_delivery_settle no_delivery_get_browser
  no_delivery_read_db : keeps.

Lemma same_disk_logger l : keeps same_disk (logger l).
Proof. by intros s. Qed.

Lemma same_disk_set_browser : keeps same_disk set_browser.
Proof. by intros s. Qed.

Lemma same_disk_set_page : keeps same_disk set_page.
Proof. by intros s. Qed.

Lemma same_disk_on_browser {A} (op : world → world * outcome A) :
  keeps same_disk (on_browser op).
Proof. intros s. unfold on_browser. by destruct (op (web s)). Qed.

Lemma same_disk_on_page {A} (op : world → world * outcome A) :
  keeps same_disk (on_page op).
Proof.
  intros s. unfold on_page. destruct (page s); [|done].
  apply same_disk_on_browser.
Qed.

Lemma no_delivery_logger l :
  is_sending l = false → keeps no_delivery (logger l).
Proof. intros Hl s. exists [l]. simpl. by rewrite Hl. Qed.

Lemma no_delivery_same_log s s' : log s' = log s → no_delivery s s'.
Proof. intros E. exists []. by rewrite app_nil_r. Qed.

Lemma no_delivery_set_browser : keeps no_delivery set_browser.
Proof. intros s. by apply no_delivery_same_log. Qed.

Lemma no_delivery_set_page : keeps no_delivery set_page.
Proof. intros s. by apply no_delivery_same_log. Qed.

Lemma no_delivery_on_browser {A} (op : world → world * outcome A) :
  keeps no_delivery (on_browser op).
Proof.
  intros s. unfold on_browser. destruct (op (web s)).
  by apply no_delivery_same_log.
Qed.

Lemma no_delivery_on_page {A} (op : world → world * outcome A) :
  keeps no_delivery (on_page op).
Proof.
  intros s. unfold on_page. destruct (page s).
  - apply no_delivery_on_browser.
  - apply no_delivery_refl.
Qed.

Hint Resolve same_disk_logger same_disk_set_browser same_disk_set_page
  same_disk_on_browser same_disk_on_page no_delivery_logger
  no_delivery_set_browser no_delivery_set_page no_delivery_on_browser
  no_delivery_on_page : keeps.

(** ** The browser code leaves the queue file alone *)

Lemma same_disk_loadCookiesFromEnv : keeps same_disk (loadCookiesFromEnv env).
Proof.
  unfold loadCookiesFromEnv. destruct (COOKIES_BASE64 env) as [cb|];
    [destruct (decide (cb = EmptyString))|]; eauto 10 with keeps.
Qed.

Lemma no_delivery_loadCookiesFromEnv :
  keeps no_delivery (loadCookiesFromEnv env).
Proof.
  unfold loadCookiesFromEnv. destruct (COOKIES_BASE64 env) as [cb|];
    [destruct (decide (cb = EmptyString))|]; eauto 10 with keeps.
Qed.

Lemma same_disk_ensureBrowser : keeps same_disk (ensureBrowser env).
Proof.
  unfold ensureBrowser. apply same_disk_bind; eauto with keeps.
  intros [|]; eauto 15 using same_disk_loadCookiesFromEnv with keeps.
Qed.

Lemma no_delivery_ensureBrowser : keeps no_delivery (ensureBrowser env).
Proof.
  unfold ensureBrowser. apply no_delivery_bind; eauto with keeps.
  intros [|]; eauto 15 using no_delivery_loadCookiesFromEnv with keeps.
Qed.

Lemma same_disk_probe_login : keeps same_disk probe_login.
Proof.
  intros s. unfold probe_login. destruct (page s); [|done].
  apply same_disk_try_catch; eauto with keeps.
Qed.

Lemma no_delivery_probe_login : keeps no_delivery probe_login.
Proof.
  intros s. unfold probe_login. destruct (page s).
  - apply no_delivery_try_catch; eauto with keeps.
  - apply no_delivery_refl.
Qed.

Lemma same_disk_find_composer sels : keeps same_disk (find_composer sels).
Proof.
  induction sels as [|sel rest IH]; simpl; [eauto with keeps|].
  apply same_disk_bind; eauto with keeps. by intros [c|]; eauto with keeps.
Qed.

Lemma same_disk_sendMessageToThread to body :
  keeps same_disk (sendMessageToThread to body).
Proof.
  unfold sendMessageToThread.
  do 3 (apply same_disk_bind; [eauto with keeps|intros _]).
  apply same_disk_bind; [apply same_disk_find_composer|].
  intros [c|]; eauto 15 with keeps.
Qed.

(** ** Write-backs *)

Lemma change_named_absent change x (l : list message) :
  x ∉ id <$> l → change_named change x <$> l = l.
Proof.
  induction l as [|a l IH]; [done|]. intros Hx; csimpl in *.
  apply not_elem_of_cons in Hx as [Hxa Hxl]. unfold change_named at 1.
  destruct (decide (id a = x)); [congruence|]. by rewrite IH.
Qed.

(** With unique identifiers, changing the first record that carries
    the identifier is changing every record that carries it. *)
Lemma find_insert_change_named change x (l : list message) :
  NoDup (id <$> l) →
  match list_find (λ m, id m = x) l with
  | Some (i, target) => <[i := change target]> l
  | None => l
  end = change_named change x <$> l.
Proof.
  induction l as [|a l IH]; [done|]. intros Hnd; csimpl in *.
  apply NoDup_cons in Hnd as [Ha Hnd]. unfold change_named at 1.
  destruct (decide (id a = x)) as [E|Hne]; simpl.
  - rewrite change_named_absent; [done|]. by rewrite <- E.
  - specialize (IH Hnd).
    destruct (list_find (λ m, id m = x) l) as [[i target]|]; simpl;
      by rewrite <- IH.
Qed.

Lemma written_back_messages change x d :
  NoDup (id <$> messages d) →
  messages (written_back change x d) = change_named change x <$> messages d.
Proof.
  intros Hnd. rewrite <- (find_insert_change_named change x _ Hnd).
  unfold written_back.
  by destruct (list_find (λ m, id m = x) (messages d)) as [[i target]|].
Qed.

Lemma written_back_pairings change x d :
  pairings (written_back change x d) = pairings d.
Proof.
  unfold written_back.
  by destruct (list_find (λ m, id m = x) (messages d)) as [[i target]|].
Qed.

Lemma write_back_returns change x s : (write_back change x s).2 = Return tt.
Proof.
  unfold write_back, bind, read_db; simpl.
  by destruct (list_find _ _) as [[i target]|].
Qed.

Lemma write_back_store change x s :
  readDb (disk (write_back change x s).1)
  = written_back change x (readDb (disk s)).
Proof.
  unfold write_back, written_back, bind, read_db; simpl.
  destruct (list_find _ _) as [[i target]|]; simpl; [|done].
  apply readDb_writeDb.
Qed.

Lemma write_back_missing change x s :
  x ∉ id <$> messages (readDb (disk s)) →
  write_back change x s = (s, Return tt).
Proof.
  intros Hx. unfold write_back, bind, read_db; simpl.
  destruct (list_find _ _) as [[i target]|] eqn:E; [|done].
  apply list_find_Some in E as (Hi & Hid & _). destruct Hx.
  apply list_elem_of_fmap. exists target. split; [done|].
  by eapply list_elem_of_lookup_2.
Qed.

(** ** One delivery attempt *)

Lemma attempt_returns now msg s : (attempt now msg s).2 = Return tt.
Proof.
  unfold attempt, try_catch, bind.
  destruct (sendMessageToThread _ _ s) as [s1 [b|e]].
  - pose proof (write_back_returns (mark_sent now) (id msg) s1) as E.
    destruct (write_back _ _ s1) as [s2 [[]|e]]; simpl in *; congruence.
  - simpl. apply write_back_returns.
Qed.

Lemma attempt_store now msg s :
  ∃ change,
    (change = mark_sent now ∨ ∃ e, change = mark_failed e now)
    ∧ readDb (disk (attempt now msg s).1)
      = written_back change (id msg) (readDb (disk s)).
Proof.
  unfold attempt, try_catch, bind.
  pose proof (same_disk_sendMessageToThread (toThreadId msg) (text msg) s)
    as Hd. unfold same_disk in Hd.
  destruct (sendMessageToThread _ _ s) as [s1 [b|e]]; simpl in Hd.
  - exists (mark_sent now). split; [by left|].
    pose proof (write_back_returns (mark_sent now) (id msg) s1) as E.
    pose proof (write_back_store (mark_sent now) (id msg) s1) as E'.
    destruct (write_back _ _ s1) as [s2 [[]|e]]; simpl in *; [|congruence].
    by rewrite E', Hd.
  - exists (mark_failed e now). split; [by right; exists e|].
    simpl. by rewrite write_back_store, Hd.
Qed.

Lemma attempt_missing now msg s :
  id msg ∉ id <$> messages (readDb (disk s)) →
  disk (attempt now msg s).1 = disk s.
Proof.
  intros Hx. unfold attempt, try_catch, bind.
  pose proof (same_disk_sendMessageToThread (toThreadId msg) (text msg) s)
    as Hd. unfold same_disk in Hd.
  destruct (sendMessageToThread _ _ s) as [s1 [b|e]]; simpl in Hd.
  - rewrite write_back_missing; [done|]. by rewrite Hd.
  - simpl. rewrite write_back_missing; [done|]. simpl. by rewrite Hd.
Qed.

(** ** The loop over the queued messages *)

Lemma for_each_returns clock q : ∀ k s, (for_each clock k q s).2 = Return tt.
Proof.
  induction q as [|msg rest IH]; intros k s; simpl; [done|].
  unfold bind. pose proof (attempt_returns (clock k) msg s) as Hret.
  destruct (attempt (clock k) msg s) as [s1 [[]|e]]; simpl in *; [|done].
  apply IH.
Qed.

Lemma change_named_id change x m :
  (∀ t, id (change t) = id t) → id (change_named change x m) = id m.
Proof. intros Hid. unfold change_named. by destruct (decide _). Qed.

(** Every record named in [q] is marked once, as sent or as failed;
    every other record, and every pairing, is left as it was. *)
Lemma for_each_store clock q : ∀ k s,
  NoDup (id <$> messages (readDb (disk s))) →
  NoDup (id <$> q) →
  pairings (readDb (disk (for_each clock k q s).1))
  = pairings (readDb (disk s))
  ∧ id <$> messages (readDb (disk (for_each clock k q s).1))
    = id <$> messages (readDb (disk s))
  ∧ ∀ i m, messages (readDb (disk s)) !! i = Some m →
      ∃ m', (messages (readDb (disk (for_each clock k q s).1)) !! i = Some m')
        ∧ ((id m ∈ id <$> q
            ∧ ((∃ t, m' = mark_sent t m) ∨ ∃ e t, m' = mark_failed e t m))
           ∨ ((id m ∉ id <$> q) ∧ m' = m)).
Proof.
  induction q as [|msg rest IH]; intros k s Hnd Hq; simpl.
  - split; [done|]. split; [done|]. intros i m Hi. exists m.
    split; [done|]. right. split; [apply not_elem_of_nil|done].
  - unfold bind. pose proof (attempt_returns (clock k) msg s) as Hret.
    destruct (attempt_store (clock k) msg s) as (change & Hchange & Hst).
    destruct (attempt (clock k) msg s) as [s1 [[]|e]]; simpl in *; [|done].
    assert (Hid : ∀ t, id (change t) = id t).
    { by destruct Hchange as [->|[e ->]]. }
    assert (Hm1 : messages (readDb (disk s1))
                  = change_named change (id msg) <$> messages (readDb (disk s))).
    { rewrite Hst. by apply written_back_messages. }
    assert (Hids : id <$> messages (readDb (disk s1))
                   = id <$> messages (readDb (disk s))).
    { rewrite Hm1, <- list_fmap_compose. apply list_fmap_ext.
      intros j x _. simpl. by apply change_named_id. }
    apply NoDup_cons in Hq as [Hmsg Hrest].
    destruct (IH (S k) s1) as (Hp & Hi' & Hrec); [by rewrite Hids|done|].
    split; [by rewrite Hp, Hst, written_back_pairings|].
    split; [by rewrite Hi', Hids|].
    intros i m Hi.
    destruct (Hrec i (change_named change (id msg) m)) as (m' & Hm' & Hcase).
    { by rewrite Hm1, list_lookup_fmap, Hi. }
    exists m'. split; [done|].
    rewrite (change_named_id _ _ _ Hid) in Hcase.
    unfold change_named in Hcase.
    destruct (decide (id m = id msg)) as [E|NE].
    + left. split; [rewrite E; apply elem_of_cons; by left|].
      destruct Hcase as [[Hin _]|[_ ->]]; [by rewrite E in Hin|].
      destruct Hchange as [->|[e ->]]; eauto.
    + destruct Hcase as [[Hin Hc]|[Hnin ->]]; [left|right].
      * split; [apply elem_of_cons; by right|done].
      * split; [|done]. apply not_elem_of_cons. by split.
Qed.

(** ** The code before the loop *)

Lemma same_disk_prologue : keeps same_disk (prologue env).
Proof.
  unfold prologue. apply same_disk_try_catch; [|eauto with keeps].
  apply same_disk_bind; [eauto with keeps|]. intros d.
  destruct (decide _); [eauto with keeps|].
  apply same_disk_bind; [apply same_disk_ensureBrowser|]. intros _.
  apply same_disk_bind; [apply same_disk_probe_login|].
  intros [|]; simpl; eauto with keeps.
Qed.

Lemma no_delivery_prologue : keeps no_delivery (prologue env).
Proof.
  unfold prologue. apply no_delivery_try_catch; [|eauto with keeps].
  apply no_delivery_bind; [eauto with keeps|]. intros d.
  destruct (decide _); [eauto with keeps|].
  apply no_delivery_bind; [apply no_delivery_ensureBrowser|]. intros _.
  apply no_delivery_bind; [apply no_delivery_probe_login|].
  intros [|]; simpl; eauto with keeps.
Qed.

Lemma prologue_snapshot s s1 q :
  prologue env s = (s1, Return (inr q)) →
  q = filter (λ m, status m = queued) (messages (readDb (disk s))).
Proof.
  unfold prologue, try_catch, bind, read_db, logger, ret; simpl.
  destruct (decide _); simpl; [done|].
  destruct (ensureBrowser env s) as [s2 [[]|e]]; simpl; [|done].
  destruct (probe_login s2) as [s3 [[|]|e]]; simpl; congruence.
Qed.

Lemma prologue_nothing_queued s s1 :
  prologue env s = (s1, Return (inl NothingQueued)) →
  filter (λ m, status m = queued) (messages (readDb (disk s))) = [].
Proof.
  unfold prologue, try_catch, bind, read_db, logger, ret; simpl.
  destruct (decide _) as [E|NE]; simpl.
  - intros _. by apply nil_length_inv.
  - destruct (ensureBrowser env s) as [s2 [[]|e]]; simpl; [|done].
    destruct (probe_login s2) as [s3 [[|]|e]]; simpl; congruence.
Qed.

(** [processQueueOnce] is its prologue followed by the loop. *)
Lemma processQueueOnce_unfold clock s :
  processQueueOnce env clock s =
    match prologue env s with
    | (s1, Return (inl e)) => (s1, Return e)
    | (s1, Return (inr q)) => ((for_each clock 0 q s1).1, Return Drained)
    | (s1, Throw e) => (s1, Throw e)
    end.
Proof.
  unfold processQueueOnce, prologue, try_catch, bind, read_db; simpl.
  destruct (decide _); simpl; [done|].
  destruct (ensureBrowser env s) as [s2 [[]|e]]; simpl; [|done].
  destruct (probe_login s2) as [s3 [[|]|e]]; simpl; [|done..].
  pose proof (for_each_returns clock
    (filter (λ m, status m = queued) (messages (readDb (disk s)))) 0 s3) as E.
  by destruct (for_each _ _ _ s3) as [s4 [[]|e]].
Qed.

(** A cycle that no request and no other cycle interrupts is the
    timer's [Tick] followed by one [Resume] for every queued message. *)
Lemma resumes_for_each clock q : ∀ i s X,
  proc (resumes env clock 0 i (length q) (Node s [q] X))
  = (for_each clock i q s).1.
Proof.
  induction q as [|msg rest IH]; intros i s X; [done|].
  cbn [length resumes for_each]. unfold bind.
  pose proof (attempt_returns (clock i) msg s) as Hret.
  destruct (attempt (clock i) msg s) as [s1 [[]|e]] eqn:E; simpl in Hret;
    [|done].
  rewrite <- IH with (X := X). unfold exec; simpl. by rewrite E.
Qed.

Lemma cycle_as_steps clock s X :
  proc (resumes env clock 0 0
          (length (pending (exec env Tick (Node s [] X))))
          (exec env Tick (Node s [] X)))
  = (processQueueOnce env clock s).1.
Proof.
  rewrite processQueueOnce_unfold. unfold exec, pending; simpl.
  destruct (prologue env s) as [s1 [[e|q]|err]]; simpl; [done| |done].
  rewrite app_nil_r. apply resumes_for_each.
Qed.

(** The four ways through the code before the loop. *)
Lemma prologue_cases s :
  let q := queued_now (readDb (disk s)) in
  (q = [] ∧ prologue env s = (s, Return (inl NothingQueued)))
  ∨ (q ≠ [] ∧ ∃ err s1,
       session_unavailable env s err s1
       ∧ prologue env s
         = ((logger (ErrorCycle err) s1).1, Return (inl (Caught err))))
  ∨ (q ≠ [] ∧ ∃ s1 s2,
       ensureBrowser env s = (s1, Return tt)
       ∧ probe_login s1 = (s2, Return false)
       ∧ prologue env s
         = ((logger WarnNotLoggedIn s2).1, Return (inl NotLoggedIn)))
  ∨ (q ≠ [] ∧ ∃ s1 s2,
       ensureBrowser env s = (s1, Return tt)
       ∧ probe_login s1 = (s2, Return true)
       ∧ prologue env s = (s2, Return (inr q))).
Proof.
  unfold queued_now, session_unavailable, prologue, try_catch, bind, read_db,
    logger, ret; simpl.
  destruct (decide _) as [E|NE]; simpl.
  { left. split; [by apply nil_length_inv|done]. }
  right.
  assert (filter (λ m, status m = queued) (messages (readDb (disk s))) ≠ [])
    as Hq by (intros E; by rewrite E in NE).
  destruct (ensureBrowser env s) as [s1 [[]|e]] eqn:EB; simpl.
  2:{ left. split; [done|]. exists e, s1. split; [by left|done]. }
  destruct (probe_login s1) as [s2 [[|]|e]] eqn:PL; simpl.
  - right; right. split; [done|]. by exists s1, s2.
  - right; left. split; [done|]. by exists s1, s2.
  - left. split; [done|]. exists e, s2. split; [|done].
    right. by exists s1.
Qed.

Lemma no_delivery_log_line s l :
  is_sending l = false → no_delivery s (logger l s).1.
Proof. intros Hl. by apply no_delivery_logger. Qed.

Lemma queued_now_elem d m : m ∈ queued_now d ↔ status m = queued ∧ m ∈ messages d.
Proof. apply (list_elem_of_filter (λ m, status m = queued)). Qed.

Lemma queued_now_NoDup d :
  NoDup (id <$> messages d) → NoDup (id <$> queued_now d).
Proof.
  intros Hnd. eapply sublist_NoDup; [exact Hnd|].
  apply fmap_sublist, sublist_filter.
Qed.

(** With unique identifiers a record is known by its identifier. *)
Lemma same_id_same_record (l : list message) m1 m2 :
  NoDup (id <$> l) → m1 ∈ l → m2 ∈ l → id m1 = id m2 → m1 = m2.
Proof.
  intros Hnd [i Hi]%list_elem_of_lookup [j Hj]%list_elem_of_lookup E.
  assert (i = j) as ->.
  { eapply (NoDup_lookup _ _ _ (id m1) Hnd);
      rewrite list_lookup_fmap; [by rewrite Hi|by rewrite Hj, E]. }
  congruence.
Qed.

Lemma prologue_disk s : disk (prologue env s).1 = disk s.
Proof. apply same_disk_prologue. Qed.

(** ** One dispatch cycle *)

(** A write-back changes no record that carries another identifier,
    unique or not. *)
Lemma written_back_other change x d i r :
  messages d !! i = Some r → id r ≠ x →
  messages (written_back change x d) !! i = Some r.
Proof.
  intros Hi Hx. unfold written_back.
  destruct (list_find (λ m, id m = x) (messages d)) as [[j target]|] eqn:E;
    [|done].
  apply list_find_Some in E as (Hj & Hid & _). simpl.
  rewrite list_lookup_insert_ne; [done|]. intros ->. congruence.
Qed.

Lemma attempt_other now msg s i r :
  messages (readDb (disk s)) !! i = Some r → id r ≠ id msg →
  messages (readDb (disk (attempt now msg s).1)) !! i = Some r.
Proof.
  intros Hi Hx. destruct (attempt_store now msg s) as (change & _ & ->).
  by apply written_back_other.
Qed.


(** C2: when the queue is not empty, the browser is ready and the
    login probe answers [false], the cycle leaves at the login check
    right after that one probe: the queue file is not written (so no
    status changes and no error is recorded on any message) and no
    delivery is started. *)
Theorem not_logged_in_aborts clock s s1 s2 :
  queued_now (readDb (disk s)) ≠ [] →
  ensureBrowser env s = (s1, Return tt) →
  probe_login s1 = (s2, Return false) →
  processQueueOnce env clock s
  = ((logger WarnNotLoggedIn s2).1, Return NotLoggedIn)
  ∧ disk (processQueueOnce env clock s).1 = disk s
  ∧ messages (readDb (disk (processQueueOnce env clock s).1))
    = messages (readDb (disk s))
  ∧ no_delivery s (processQueueOnce env clock s).1.
Proof.
  intros Hq EB PL.
  assert (P : prologue env s
              = ((logger WarnNotLoggedIn s2).1, Return (inl NotLoggedIn))).
  { pose proof (prologue_cases s) as PC. cbv zeta in PC.
    destruct PC as [[Hq0 _]|[(_ & err & s1' & Hsu & _)
      |[(_ & s1' & s2' & EB' & PL' & P)|(_ & s1' & s2' & EB' & PL' & _)]]].
    - done.
    - destruct Hsu as [E|(s0 & E & E')]; congruence.
    - congruence.
    - congruence. }
  assert (E : (processQueueOnce env clock s).1 = (prologue env s).1).
  { rewrite processQueueOnce_unfold, P. done. }
  rewrite E. split; [by rewrite processQueueOnce_unfold, P|].
  split; [apply prologue_disk|]. split; [by rewrite prologue_disk|].
  apply no_delivery_prologue.
Qed.

(** A cycle that nothing interrupts: a record that is [sent] or
    [failed] when it starts is the same record, field for field and at
    the same place, when it ends; and the messages a cycle takes up all
    have status [queued].  Identifiers are taken to be unique. *)
Lemma settled_records_untouched clock s i m :
  NoDup (id <$> messages (readDb (disk s))) →
  messages (readDb (disk s)) !! i = Some m →
  status m ≠ queued →
  messages (readDb (disk (processQueueOnce env clock s).1)) !! i = Some m
  ∧ ∀ s1 q, prologue env s = (s1, Return (inr q)) →
      Forall (λ p, status p = queued) q.
Proof.
  intros Hnd Hi Hs. split.
  - rewrite processQueueOnce_unfold.
    pose proof (prologue_disk s) as Hd.
    destruct (prologue env s) as [s1 [[e|q]|err]] eqn:P; simpl in *;
      [by rewrite Hd| |by rewrite Hd].
    apply prologue_snapshot in P. fold (queued_now (readDb (disk s))) in P.
    subst q.
    destruct (for_each_store clock (queued_now (readDb (disk s))) 0 s1)
      as (_ & _ & Hrec); [by rewrite Hd|by apply queued_now_NoDup|].
    destruct (Hrec i m) as (m' & Hm' & [[Hin _]|[_ ->]]);
      [by rewrite Hd| |done].
    apply list_elem_of_fmap in Hin as (p & Hid & Hp).
    apply queued_now_elem in Hp as [Hpq Hp].
    assert (m = p); [|congruence].
    eapply same_id_same_record; [exact Hnd| |done..].
    by eapply list_elem_of_lookup_2.
  - intros s1 q P. apply prologue_snapshot in P. subst q.
    apply Forall_forall. intros p Hp.
    by apply (list_elem_of_filter (λ m, status m = queued)) in Hp as [? _].
Qed.

(** What cycle number [k] has yet to attempt only shrinks, whatever
    else the process does. *)
Lemma exec_keeps_clear x k e n :
  (∃ c, cycles n !! k = Some c ∧ x ∉ id <$> c) →
  ∃ c, cycles (exec env e n) !! k = Some c ∧ x ∉ id <$> c.
Proof.
  intros (c & Hk & Hx). destruct e as [body uuid now|r now| | | |j now];
    cbn [exec cycles]; try by exists c.
  - destruct (prologue env (proc n)) as [s [[e|q]|err]]; cbn [cycles];
      try by exists c.
    exists c. split; [|done]. by apply lookup_app_l_Some.
  - destruct (cycles n !! j) as [[|msg rest]|] eqn:Ej; try by exists c.
    cbn [cycles]. destruct (decide (j = k)) as [->|Hne].
    + exists rest. split.
      * apply list_lookup_insert_eq. by eapply lookup_lt_Some.
      * rewrite Hk in Ej. injection Ej as ->. csimpl in Hx.
        by apply not_elem_of_cons in Hx as [_ Hx].
    + exists c. split; [|done]. by rewrite list_lookup_insert_ne.
Qed.

Lemma run_keeps_clear x k tr : ∀ n,
  (∃ c, cycles n !! k = Some c ∧ x ∉ id <$> c) →
  ∃ c, cycles (run env tr n) !! k = Some c ∧ x ∉ id <$> c.
Proof.
  induction tr as [|e tr IH]; intros n Hn; [done|].
  cbn [run]. apply IH. by apply exec_keeps_clear.
Qed.

(** A step of cycle number [k] leaves alone every record that carries
    an identifier the cycle does not hold. *)
Lemma resume_other x k now n j r :
  (∃ c, cycles n !! k = Some c ∧ x ∉ id <$> c) →
  messages (readDb (disk (proc n))) !! j = Some r →
  id r = x →
  messages (readDb (disk (proc (exec env (Resume k now) n)))) !! j = Some r.
Proof.
  intros (c & Hk & Hx) Hj Hid. cbn [exec]. rewrite Hk.
  destruct c as [|msg rest]; [done|]. cbn [proc].
  apply attempt_other; [done|]. csimpl in Hx.
  apply not_elem_of_cons in Hx as [Hx _]. congruence.
Qed.

(** C5, as far as the code goes.  Identifiers being unique, take a
    record that is [sent] or [failed] when the timer starts a cycle.
    Starting the cycle does not change the record, and when the cycle
    gets to its loop it holds the records that are [queued] at that
    moment and no other, so not this one.  From then on, whatever
    requests and steps of whatever cycles [tr] the process goes
    through, no step of this cycle changes a record that carries the
    identifier. *)
Theorem later_cycle_spares_settled n i m :
  NoDup (id <$> messages (readDb (disk (proc n)))) →
  messages (readDb (disk (proc n))) !! i = Some m →
  status m ≠ queued →
  messages (readDb (disk (proc (exec env Tick n)))) !! i = Some m
  ∧ ∀ q, cycles (exec env Tick n) = (cycles n ++ [q])%list →
      q = queued_now (readDb (disk (proc n)))
      ∧ Forall (λ p, status p = queued) q
      ∧ (id m ∉ id <$> q)
      ∧ ∀ tr now j r,
          messages (readDb (disk (proc (run env tr (exec env Tick n))))) !! j
          = Some r →
          id r = id m →
          messages (readDb (disk (proc
            (exec env (Resume (length (cycles n)) now)
               (run env tr (exec env Tick n)))))) !! j
          = Some r.
Proof.
  intros Hnd Hi Hs.
  pose proof (prologue_disk (proc n)) as Hd. split.
  { cbn [exec].
    destruct (prologue env (proc n)) as [s [[e|q]|err]]; cbn [proc fst] in *;
      by rewrite Hd. }
  intros q Hq.
  assert (P : ∃ s, prologue env (proc n) = (s, Return (inr q))).
  { cbn [exec] in Hq.
    destruct (prologue env (proc n)) as [s [[e|q']|err]]; cbn [cycles] in Hq.
    - apply (f_equal length) in Hq. rewrite length_app in Hq. simpl in Hq. lia.
    - apply app_inv_head in Hq. injection Hq as ->. by exists s.
    - apply (f_equal length) in Hq. rewrite length_app in Hq. simpl in Hq. lia. }
  destruct P as [s P]. pose proof (prologue_snapshot _ _ _ P) as Eq.
  fold (queued_now (readDb (disk (proc n)))) in Eq.
  assert (Hx : id m ∉ id <$> q).
  { intros Hin. apply list_elem_of_fmap in Hin as (p & Hid & Hp).
    rewrite Eq in Hp. apply queued_now_elem in Hp as [Hpq Hp].
    assert (m = p); [|congruence].
    eapply same_id_same_record; [exact Hnd| |done..].
    by eapply list_elem_of_lookup_2. }
  split; [done|]. split.
  { rewrite Eq. apply Forall_forall. intros p Hp.
    by apply queued_now_elem in Hp as [? _]. }
  split; [done|].
  intros tr now j r Hj Hid.
  apply (resume_other (id m)); [|done..].
  apply run_keeps_clear. exists q. split; [|done].
  rewrite Hq. apply list_lookup_middle. done.
Qed.

(** C9: the write-back of a delivery, whether it succeeded or failed,
    looks the message up in the queue file as it is at that moment;
    when no record there carries the identifier, nothing is written:
    the file and the number of writes are as before. *)
Theorem write_back_skips_missing change now msg s :
  id msg ∉ id <$> messages (readDb (disk s)) →
  write_back change (id msg) s = (s, Return tt)
  ∧ disk (attempt now msg s).1 = disk s.
Proof.
  intros Hx. split; [by apply write_back_missing|by apply attempt_missing].
Qed.

(** ** The queue file *)

(** When the queue file is not there, cannot be read, or holds text
    that [JSON.parse] rejects, [readDb] returns the empty database
    [{ messages: [], pairings: {} }]. *)
Lemma readDb_self_heals fs :
  queue_json fs = Missing
  ∨ queue_json fs = Unreadable
  ∨ (∃ c, queue_json fs = Content c ∧ JSON_parse c = None) →
  readDb fs = empty_db
  ∧ messages (readDb fs) = [] ∧ pairings (readDb fs) = ∅.
Proof.
  unfold readDb, readFileSync.
  intros [E|[E|(c & E & Hc)]]; rewrite E; [done..|]. by rewrite Hc.
Qed.

(** ** The request handlers *)

Lemma falsy_empty v : falsy v = true ↔ empty v.
Proof.
  unfold falsy, empty. destruct v as [v|]; [|naive_solver].
  rewrite bool_decide_eq_true.
  split; [intros ->; by right|intros [?|?]; congruence].
Qed.

Lemma api_send_rejects body uuid now s :
  falsy (req_toThreadId body) || falsy (req_text body) = true →
  api_send body uuid now s
  = (s, Return (Status400 "toThreadId and text required")).
Proof. intros E. unfold api_send. by rewrite E. Qed.

Lemma api_send_accepts body uuid now s :
  falsy (req_toThreadId body) || falsy (req_text body) = false →
  ∃ item,
    id item = uuid
    ∧ toThreadId item = default EmptyString (req_toThreadId body)
    ∧ text item = default EmptyString (req_text body)
    ∧ createdAt item = now
    ∧ status item = queued
    ∧ lastError item = None ∧ sentAt item = None ∧ attemptedAt item = None
    ∧ (api_send body uuid now s).2 = Return (JsonQueued uuid)
    ∧ readDb (disk (api_send body uuid now s).1)
      = Db (messages (readDb (disk s)) ++ [item])%list
          (pairings (readDb (disk s))).
Proof.
  intros E. unfold api_send. rewrite E.
  eexists (Message uuid _ _ _ now queued None None None).
  unfold bind, read_db, write_db, logger, ret; simpl.
  repeat split. apply readDb_writeDb.
Qed.

(** C3: [POST /api/send] answers with the 400 error exactly when
    [toThreadId] or [text] is empty, and then leaves the process state,
    queue file included, as it was; when both are given it appends one
    record with the identifier [uuidv4()] returned, status [queued] and
    neither [sentAt] nor [attemptedAt], and answers with that
    identifier. *)
Theorem send_validates body uuid now s :
  ((∃ msg, (api_send body uuid now s).2 = Return (Status400 msg))
   ↔ (empty (req_toThreadId body) ∨ empty (req_text body)))
  ∧ ((empty (req_toThreadId body) ∨ empty (req_text body)) →
     (api_send body uuid now s).1 = s)
  ∧ (¬ (empty (req_toThreadId body) ∨ empty (req_text body)) →
     (api_send body uuid now s).2 = Return (JsonQueued uuid)
     ∧ ∃ item,
         messages (readDb (disk (api_send body uuid now s).1))
         = (messages (readDb (disk s)) ++ [item])%list
         ∧ id item = uuid
         ∧ Some (toThreadId item) = req_toThreadId body
         ∧ Some (text item) = req_text body
         ∧ status item = queued
         ∧ sentAt item = None
         ∧ attemptedAt item = None).
Proof.
  rewrite <- !falsy_empty.
  destruct (falsy (req_toThreadId body) || falsy (req_text body)) eqn:E.
  - assert (falsy (req_toThreadId body) = true
            ∨ falsy (req_text body) = true) as Hor.
    { apply orb_true_iff in E. naive_solver. }
    rewrite (api_send_rejects _ _ _ _ E); simpl.
    split; [split; [done|by eexists]|]. split; [done|]. by intros [].
  - apply orb_false_iff in E as E'. destruct E' as [E1 E2].
    destruct (api_send_accepts body uuid now s E)
      as (item & ? & Hto & Htxt & ? & ? & ? & ? & ? & Hr & Hdb).
    rewrite Hr, Hdb; simpl.
    split; [split; [by intros [? ?]|intros [?|?]; congruence]|].
    split; [intros [?|?]; congruence|]. intros _. split; [done|].
    exists item. rewrite Hto, Htxt.
    destruct (req_toThreadId body), (req_text body); by repeat split.
Qed.

Lemma api_clear_store s :
  readDb (disk (api_clear s).1) = Db [] (pairings (readDb (disk s))).
Proof.
  unfold api_clear, bind, read_db, write_db, ret; simpl.
  apply readDb_writeDb.
Qed.

Lemma api_pair_store r now s :
  readDb (disk (api_pair r now s).1)
  = Db (messages (readDb (disk s)))
      (<[pairing_code r := Pairing now]> (pairings (readDb (disk s)))).
Proof.
  unfold api_pair, bind, read_db, write_db, ret; simpl.
  apply readDb_writeDb.
Qed.

Lemma api_queue_state s : (api_queue s).1 = s.
Proof. done. Qed.

(** C6: [POST /api/clear-queue] leaves no message in the queue file,
    whatever the status of the records it held, and the pairings it
    holds are the ones it held before. *)
Theorem clear_keeps_pairings s :
  messages (readDb (disk (api_clear s).1)) = []
  ∧ pairings (readDb (disk (api_clear s).1)) = pairings (readDb (disk s))
  ∧ (api_clear s).2 = Return JsonOk.
Proof. by rewrite api_clear_store. Qed.

(** ** Pairing codes *)

Lemma upper_char_digit36 c :
  is_digit36 c = true → is_upper36 (upper_char c) = true.
Proof. destruct c as [[] [] [] [] [] [] [] []]; by vm_compute. Qed.

Lemma all_chars_toUpperCase s :
  all_chars is_digit36 s = true → all_chars is_upper36 (toUpperCase s) = true.
Proof.
  induction s as [|c s IH]; [done|]. simpl.
  intros [Hc Hs]%andb_true_iff. by rewrite upper_char_digit36, IH.
Qed.

Lemma all_chars_take_chars p n : ∀ s,
  all_chars p s = true → all_chars p (take_chars n s) = true.
Proof.
  induction n as [|n IH]; intros [|c s]; simpl; try done.
  intros [Hc Hs]%andb_true_iff. by rewrite Hc, IH.
Qed.

Lemma length_take_chars n : ∀ s, (String.length (take_chars n s) ≤ n)%nat.
Proof.
  induction n as [|n IH]; intros [|c s]; simpl; try lia.
  specialize (IH s). lia.
Qed.

Lemma length_toUpperCase s :
  String.length (toUpperCase s) = String.length s.
Proof. induction s as [|c s IH]; simpl; congruence. Qed.

Lemma radix36_fraction_inv r :
  radix36_fraction r = true →
  r = "0"
  ∨ ∃ ds, r = String "0" (String "." ds) ∧ all_chars is_digit36 ds = true.
Proof.
  destruct r as [|c1 r1]; [done|].
  destruct c1 as [[] [] [] [] [] [] [] []]; try done.
  destruct r1 as [|c2 r2]; [by left|].
  destruct c2 as [[] [] [] [] [] [] [] []]; try done.
  destruct r2 as [|d ds]; [done|]. simpl. intros E. right. by exists (String d ds).
Qed.

(** C10: for every text [Math.random().toString(36)] can print, the
    pairing code is made of characters of [0-9A-Z] only and has at most
    6 of them; it can have fewer (the text [0.i] of one half gives the
    code [I]) and it can be empty (the text [0] of zero). *)
Theorem pairing_code_shape r :
  radix36_fraction r = true →
  all_chars is_upper36 (pairing_code r) = true
  ∧ (String.length (pairing_code r) ≤ 6)%nat
  ∧ (∃ r', radix36_fraction r' = true
           ∧ (String.length (pairing_code r') < 6)%nat)
  ∧ (∃ r', radix36_fraction r' = true ∧ pairing_code r' = EmptyString).
Proof.
  intros Hr. split; [|split; [|split]].
  - apply radix36_fraction_inv in Hr as [->|(ds & -> & Hds)]; [done|].
    unfold pairing_code.
    change (slice 2 8 (String "0" (String "." ds))) with (take_chars 6 ds).
    by apply all_chars_toUpperCase, all_chars_take_chars.
  - unfold pairing_code, slice. rewrite length_toUpperCase.
    apply length_take_chars.
  - exists "0.i". split; [done|]. vm_compute. lia.
  - by exists "0".
Qed.

Lemma api_pair_pairings r now s code :
  pairings (readDb (disk (api_pair r now s).1)) !! code
  = if decide (pairing_code r = code) then Some (Pairing now)
    else pairings (readDb (disk s)) !! code.
Proof. rewrite api_pair_store; simpl. apply lookup_insert. Qed.

(** ** The invariant of the transition system *)

Lemma record_ok_stamps_ok m : record_ok m → stamps_ok m.
Proof.
  unfold record_ok, stamps_ok. destruct (status m).
  - by intros (_ & ? & ?).
  - intros (_ & ? & ?). by left.
  - intros (_ & ? & ?). by right.
Qed.

Lemma record_ok_mark_sent now m :
  status m = queued → record_ok m → record_ok (mark_sent now m).
Proof.
  unfold record_ok. intros ->. simpl. intros (? & ? & ?). by eauto.
Qed.

Lemma record_ok_mark_failed e now m :
  status m = queued → record_ok m → record_ok (mark_failed e now m).
Proof.
  unfold record_ok. intros ->. simpl. intros (? & ? & ?). by eauto.
Qed.

Ltac coherent_goals := split; [split|split; [|split]].

Lemma coherent_nil : coherent [] [] ∅.
Proof.
  coherent_goals; try by constructor.
  - intros m Hm. by apply elem_of_nil in Hm.
  - intros p Hp. by apply elem_of_nil in Hp.
Qed.

Lemma coherent_mono msgs q (X Y : gset string) :
  X ⊆ Y → coherent msgs q X → coherent msgs q Y.
Proof.
  intros HXY (Hs & Hm & Hq & Hp). split; [done|].
  split; [intros m Hin; apply HXY; by apply Hm|]. split; [done|].
  intros p Hin. destruct (Hp p Hin) as [HpX Hpq]. split; [by apply HXY|done].
Qed.

Lemma coherent_submit msgs q (X : gset string) item :
  id item ∉ X → record_ok item →
  coherent msgs q X → coherent (msgs ++ [item]) q ({[id item]} ∪ X).
Proof.
  intros Hfresh Hitem ((Hnd & Hok) & Hm & Hq & Hp). coherent_goals.
  - rewrite fmap_app. apply NoDup_app. split; [done|]. split.
    + intros x Hx Hx'. apply list_elem_of_singleton in Hx' as ->.
      apply list_elem_of_fmap in Hx as (m & E & Hin).
      apply Hfresh. rewrite E. by apply Hm.
    + apply NoDup_singleton.
  - apply Forall_app. split; [done|]. by constructor.
  - intros m [Hin|Hin%list_elem_of_singleton]%elem_of_app.
    + apply elem_of_union_r. by apply Hm.
    + subst m. apply elem_of_union_l. by apply elem_of_singleton.
  - done.
  - intros p Hin. destruct (Hp p Hin) as [HpX Hpq]. split.
    + by apply elem_of_union_r.
    + intros m [Hm'|Hm'%list_elem_of_singleton]%elem_of_app E.
      * by apply Hpq.
      * subst m. destruct Hfresh. by rewrite E.
Qed.

Lemma coherent_clear msgs q (X : gset string) :
  coherent msgs q X → coherent [] q X.
Proof.
  intros (_ & _ & Hq & Hp). coherent_goals; try by constructor.
  - intros m Hm. by apply elem_of_nil in Hm.
  - done.
  - intros p Hin. destruct (Hp p Hin) as [HpX _]. split; [done|].
    intros m Hm. by apply elem_of_nil in Hm.
Qed.

Lemma coherent_tick d (X : gset string) :
  coherent (messages d) [] X → coherent (messages d) (queued_now d) X.
Proof.
  intros ((Hnd & Hok) & Hm & _ & _). coherent_goals; try done.
  - by apply queued_now_NoDup.
  - intros p [Hpq Hp]%queued_now_elem. split; [by apply Hm|].
    intros m Hin E.
    by rewrite (same_id_same_record _ m p Hnd Hin Hp E).
Qed.

Lemma coherent_resume msgs msg rest (X : gset string) change :
  (∃ now, change = mark_sent now) ∨ (∃ e now, change = mark_failed e now) →
  coherent msgs (msg :: rest) X →
  coherent (change_named change (id msg) <$> msgs) rest X.
Proof.
  intros Hchange ((Hnd & Hok) & Hm & Hq & Hp).
  assert (Hid : ∀ t, id (change t) = id t).
  { by destruct Hchange as [[now ->]|(e & now & ->)]. }
  assert (Hids : id <$> (change_named change (id msg) <$> msgs) = id <$> msgs).
  { rewrite <- list_fmap_compose. apply list_fmap_ext.
    intros j x _. simpl. by apply change_named_id. }
  csimpl in Hq. apply NoDup_cons in Hq as [Hmsg Hrest].
  destruct (Hp msg) as [_ Hmsgq]; [apply elem_of_cons; by left|].
  coherent_goals.
  - by rewrite Hids.
  - apply Forall_fmap, Forall_forall. intros m Hin. simpl.
    pose proof (proj1 (Forall_forall _ _) Hok m Hin) as Hmok.
    unfold change_named. destruct (decide (id m = id msg)) as [E|NE]; [|done].
    specialize (Hmsgq m Hin E).
    destruct Hchange as [[now ->]|(e & now & ->)];
      [by apply record_ok_mark_sent|by apply record_ok_mark_failed].
  - intros m' (m & -> & Hin)%list_elem_of_fmap.
    rewrite (change_named_id _ _ _ Hid). by apply Hm.
  - done.
  - intros p Hin.
    destruct (Hp p) as [HpX Hpq]; [apply elem_of_cons; by right|].
    split; [done|].
    intros m' (m & -> & Hin')%list_elem_of_fmap E.
    rewrite (change_named_id _ _ _ Hid) in E.
    unfold change_named. destruct (decide (id m = id msg)) as [E'|NE].
    + destruct Hmsg. rewrite <- E', E. by apply list_elem_of_fmap_2.
    + by apply Hpq.
Qed.

Lemma coherent_perm msgs q q' (X : gset string) :
  q ≡ₚ q' → coherent msgs q X → coherent msgs q' X.
Proof.
  intros Hperm (Hs & Hm & Hq & Hp). split; [done|]. split; [done|]. split.
  - by rewrite <- Hperm.
  - intros p Hin. apply Hp. by rewrite Hperm.
Qed.

Lemma pending_resume (cs : list (list message)) k msg rest :
  cs !! k = Some (msg :: rest) →
  concat cs ≡ₚ msg :: concat (<[k := rest]> cs).
Proof.
  intros Hk. pose proof (lookup_lt_Some _ _ _ Hk) as Hlt.
  rewrite insert_take_drop by done.
  rewrite <- (take_drop_middle _ _ _ Hk) at 1.
  rewrite !concat_app; simpl. by rewrite <- Permutation_middle.
Qed.

Lemma node_ok_exec e n : node_ok n → allowed e n → node_ok (exec env e n).
Proof.
  unfold node_ok, pending. intros Hok Ha.
  destruct e as [body uuid now|r now| | | |k now]; unfold exec, allowed in *;
    cbn [proc cycles issued].
  - destruct (falsy (req_toThreadId body) || falsy (req_text body)) eqn:E.
    + rewrite (api_send_rejects _ _ _ _ E); simpl.
      eapply coherent_mono; [|done]. apply union_subseteq_r.
    + destruct (api_send_accepts body uuid now (proc n) E)
        as (item & Hid & _ & _ & _ & Hst & Hle & Hsa & Haa & _ & Hdb).
      rewrite Hdb; simpl. rewrite <- Hid in *.
      apply coherent_submit; [done| |done].
      unfold record_ok. by rewrite Hst.
  - by rewrite api_pair_store.
  - rewrite api_clear_store; simpl. by eapply coherent_clear.
  - done.
  - pose proof (prologue_disk (proc n)) as Hd. unfold pending in Ha.
    destruct (prologue env (proc n)) as [s1 [[e|q]|err]] eqn:P;
      cbn [proc cycles issued fst] in *; rewrite Hd; [done| |done].
    apply prologue_snapshot in P. subst q. rewrite Ha in Hok.
    rewrite concat_app, Ha; simpl. rewrite app_nil_r.
    by apply coherent_tick.
  - destruct (cycles n !! k) as [[|msg rest]|] eqn:E;
      cbn [proc cycles issued]; [done| |done].
    destruct (attempt_store now msg (proc n)) as (change & Hc & Hst).
    rewrite Hst, written_back_messages; [|by destruct Hok as [[? _] _]].
    apply coherent_resume; [destruct Hc as [->|[e ->]]; [left|right]; by eauto|].
    eapply coherent_perm; [|exact Hok]. by apply pending_resume.
Qed.

(** A record that is [sent] or [failed] stays as it is, at its place,
    through every step but the clearing of the queue. *)
Lemma settled_record_stays e n i m :
  node_ok n → e ≠ PostClear →
  messages (readDb (disk (proc n))) !! i = Some m →
  status m ≠ queued →
  messages (readDb (disk (proc (exec env e n)))) !! i = Some m.
Proof.
  unfold node_ok, pending. intros Hok Hne Hi Hs.
  destruct e as [body uuid now|r now| | | |k now]; unfold exec;
    cbn [proc cycles issued].
  - destruct (falsy (req_toThreadId body) || falsy (req_text body)) eqn:E.
    + by rewrite (api_send_rejects _ _ _ _ E).
    + destruct (api_send_accepts body uuid now (proc n) E)
        as (item & _ & _ & _ & _ & _ & _ & _ & _ & _ & Hdb).
      rewrite Hdb; simpl. by apply lookup_app_l_Some.
  - by rewrite api_pair_store.
  - done.
  - done.
  - pose proof (prologue_disk (proc n)) as Hd.
    destruct (prologue env (proc n)) as [s1 [[e|q]|err]];
      cbn [proc cycles issued fst] in *; by rewrite Hd.
  - destruct (cycles n !! k) as [[|msg rest]|] eqn:E;
      cbn [proc cycles issued]; [done| |done].
    destruct (attempt_store now msg (proc n)) as (change & _ & Hst).
    destruct Hok as ((Hnd & _) & _ & _ & Hp).
    rewrite Hst, written_back_messages, list_lookup_fmap, Hi by done.
    simpl. unfold change_named.
    destruct (decide (id m = id msg)) as [E'|NE]; [|done].
    destruct Hs. destruct (Hp msg) as [_ Hq].
    { rewrite (pending_resume _ _ _ _ E). apply elem_of_cons. by left. }
    apply Hq; [by eapply list_elem_of_lookup_2|done].
Qed.

Lemma reachable_node_ok n : reachable env n → node_ok n.
Proof.
  induction 1 as [s Hs|e n Hn IH Ha].
  - unfold node_ok; simpl. rewrite Hs. apply coherent_nil.
  - by apply node_ok_exec.
Qed.

(** The runs without overlapping cycles are runs of the process. *)
Lemma reachable_runs n : reachable env n → runs env n.
Proof.
  induction 1 as [s Hs|e n _ IH Ha].
  - by apply runs_start.
  - apply runs_exec; [done|]. by destruct e.
Qed.

(** C4, as far as the code goes: in every state the process gets to
    from an empty queue through [POST /api/send], [POST /api/pair],
    [POST /api/clear-queue], [GET /api/queue] and the steps of dispatch
    cycles (requests being served between the write-backs of a cycle),
    provided [uuidv4] does not repeat an identifier and the timer starts
    no cycle while an earlier one still has messages to attempt, a
    record whose status is [queued] has neither [sentAt] nor
    [attemptedAt], and a record whose status is [sent] or [failed] has
    exactly one of them. *)
Theorem stamps_invariant n :
  reachable env n → Forall stamps_ok (messages (readDb (disk (proc n)))).
Proof.
  intros Hn. apply reachable_node_ok in Hn as ((_ & Hok) & _).
  eapply Forall_impl; [exact Hok|]. apply record_ok_stamps_ok.
Qed.

(** ** Pairing records *)

Lemma exec_pairings e n code :
  pairings (readDb (disk (proc (exec env e n)))) !! code
  = match e with
    | PostPair r now =>
        if decide (pairing_code r = code) then Some (Pairing now)
        else pairings (readDb (disk (proc n))) !! code
    | _ => pairings (readDb (disk (proc n))) !! code
    end.
Proof.
  destruct e as [body uuid now|r now| | | |k now]; unfold exec;
    cbn [proc cycles issued].
  - destruct (falsy (req_toThreadId body) || falsy (req_text body)) eqn:E.
    + by rewrite (api_send_rejects _ _ _ _ E).
    + destruct (api_send_accepts body uuid now (proc n) E)
        as (item & _ & _ & _ & _ & _ & _ & _ & _ & _ & Hdb).
      by rewrite Hdb.
  - apply api_pair_pairings.
  - by rewrite api_clear_store.
  - done.
  - pose proof (prologue_disk (proc n)) as Hd.
    destruct (prologue env (proc n)) as [s1 [[e|q]|err]];
      cbn [proc cycles issued fst] in *; by rewrite Hd.
  - destruct (cycles n !! k) as [[|msg rest]|]; cbn [proc cycles issued];
      [done| |done].
    destruct (attempt_store now msg (proc n)) as (change & _ & Hst).
    by rewrite Hst, written_back_pairings.
Qed.

(** C8, as the code has it: after two calls of [POST /api/pair] the
    record under the code of the first call holds the time of the
    first call when the second call drew another code, and the time of
    the second call when it drew the same code; and no step of the
    process removes a pairing record. *)
Theorem pairing_after_later_call r1 now1 r2 now2 s :
  pairings (readDb (disk (api_pair r2 now2 (api_pair r1 now1 s).1).1))
    !! pairing_code r1
  = Some (Pairing (if decide (pairing_code r2 = pairing_code r1)
                   then now2 else now1))
  ∧ ∀ e n code,
      is_Some (pairings (readDb (disk (proc n))) !! code) →
      is_Some (pairings (readDb (disk (proc (exec env e n)))) !! code).
Proof.
  split.
  - rewrite !api_pair_pairings.
    destruct (decide (pairing_code r2 = pairing_code r1)); [done|].
    by destruct (decide (pairing_code r1 = pairing_code r1)).
  - intros e n code Hc. rewrite exec_pairings.
    destruct e; try done. by destruct (decide _).
Qed.

(** * Further properties of the code *)

(** ** The queue file and the handlers *)

(** What [writeDb] wrote is what [readDb] reads next, whatever the
    file was before (missing, unreadable or holding other text); a
    second [writeDb] replaces the first; each call is one write and
    leaves a file that exists. *)
Lemma write_then_read d1 d2 fs :
  readDb (writeDb d2 fs) = d2
  ∧ readDb (writeDb d2 (writeDb d1 fs)) = d2
  ∧ writes (writeDb d2 (writeDb d1 fs)) = S (S (writes fs))
  ∧ existsSync (writeDb d2 fs) = true.
Proof. by rewrite !readDb_writeDb. Qed.

(** X1: the start-up check creates the queue file only when it does not
    exist: a file that exists is left as it is even when it cannot be
    read or parsed, [readDb] returns the same database before and
    after, and running the check again changes nothing. *)
Theorem startup_creates_once fs :
  existsSync (startup fs) = true
  ∧ readDb (startup fs) = readDb fs
  ∧ (existsSync fs = true → startup fs = fs)
  ∧ startup (startup fs) = startup fs.
Proof.
  split; [|split; [apply readDb_startup|split]].
  - unfold startup. by destruct (existsSync fs) eqn:E.
  - unfold startup. by intros ->.
  - unfold startup at 1.
    assert (existsSync (startup fs) = true) as ->; [|done].
    unfold startup. by destruct (existsSync fs) eqn:E.
Qed.

Lemma readDb_default fs :
  queue_json fs = Missing
  ∨ queue_json fs = Unreadable
  ∨ (∃ c, queue_json fs = Content c ∧ JSON_parse c = None) →
  readDb fs = empty_db.
Proof.
  unfold readDb, readFileSync.
  intros [E|[E|(c & E & Hc)]]; rewrite E; [done..|]. by rewrite Hc.
Qed.

(** X2: a handler that finds the queue file missing, or holding text
    that [JSON.parse] rejects, does not keep anything of it: an
    accepted [POST /api/send] leaves a file with the new record alone
    and no pairing, [POST /api/pair] a file with the new pairing alone
    and no message. *)
Theorem handlers_overwrite_broken_file body uuid now r s :
  queue_json (disk s) = Missing
  ∨ (∃ c, queue_json (disk s) = Content c ∧ JSON_parse c = None) →
  (falsy (req_toThreadId body) || falsy (req_text body) = false →
   ∃ item,
     id item = uuid
     ∧ readDb (disk (api_send body uuid now s).1) = Db [item] ∅)
  ∧ readDb (disk (api_pair r now s).1)
    = Db [] {[pairing_code r := Pairing now]}.
Proof.
  intros Hbroken.
  assert (Hd : readDb (disk s) = empty_db).
  { apply readDb_default. destruct Hbroken as [E|E]; [by left|by right; right]. }
  split.
  - intros E.
    destruct (api_send_accepts body uuid now s E)
      as (item & Hid & _ & _ & _ & _ & _ & _ & _ & _ & Hdb).
    exists item. split; [done|]. by rewrite Hdb, Hd.
  - rewrite api_pair_store, Hd. simpl. by rewrite insert_empty.
Qed.

(** X3: [POST /api/pair] answers with the code it stored: the code is
    then found in the pairings with the time of the call, every other
    code is as before, and the messages are untouched. *)
Theorem pair_then_lookup r now s :
  (api_pair r now s).2 = Return (JsonCode (pairing_code r))
  ∧ pairings (readDb (disk (api_pair r now s).1)) !! pairing_code r
    = Some (Pairing now)
  ∧ (∀ code, code ≠ pairing_code r →
       pairings (readDb (disk (api_pair r now s).1)) !! code
       = pairings (readDb (disk s)) !! code)
  ∧ messages (readDb (disk (api_pair r now s).1))
    = messages (readDb (disk s)).
Proof.
  split; [done|]. rewrite api_pair_store; simpl. split; [|split; [|done]].
  - apply lookup_insert_eq.
  - intros code Hne. by apply lookup_insert_ne.
Qed.

(** X4: [GET /api/queue] answers with the stored messages and changes
    nothing; after an accepted [POST /api/send] the listing is the
    earlier listing followed by one more record, and after
    [POST /api/clear-queue] it is empty. *)
Theorem listing_after_requests body uuid now s :
  api_queue s = (s, Return (JsonMessages (messages (readDb (disk s)))))
  ∧ (falsy (req_toThreadId body) || falsy (req_text body) = false →
     ∃ item,
       (api_queue (api_send body uuid now s).1).2
       = Return (JsonMessages (messages (readDb (disk s)) ++ [item])%list))
  ∧ (api_queue (api_clear s).1).2 = Return (JsonMessages []).
Proof.
  assert (Hq : ∀ s', (api_queue s').2
                     = Return (JsonMessages (messages (readDb (disk s')))))
    by done.
  split; [done|]. split.
  - intros E.
    destruct (api_send_accepts body uuid now s E)
      as (item & _ & _ & _ & _ & _ & _ & _ & _ & _ & Hdb).
    exists item. by rewrite Hq, Hdb.
  - by rewrite Hq, api_clear_store.
Qed.

(** X5: the record an accepted [POST /api/send] stores carries the time
    of the call as [createdAt], [null] as [lastError], and as
    [senderName] the name given or [null] when it is missing or empty
    (never the empty string); the pairings and the earlier records are
    as before, and the file is written once. *)
Theorem send_stores_record body uuid now s :
  falsy (req_toThreadId body) || falsy (req_text body) = false →
  ∃ item,
    messages (readDb (disk (api_send body uuid now s).1))
    = (messages (readDb (disk s)) ++ [item])%list
    ∧ createdAt item = now
    ∧ lastError item = None
    ∧ senderName item ≠ Some EmptyString
    ∧ (senderName item = None ↔ empty (req_senderName body))
    ∧ (¬ empty (req_senderName body) →
       senderName item = req_senderName body)
    ∧ pairings (readDb (disk (api_send body uuid now s).1))
      = pairings (readDb (disk s))
    ∧ writes (disk (api_send body uuid now s).1) = S (writes (disk s)).
Proof.
  intros E. unfold api_send. rewrite E.
  unfold bind, read_db, write_db, logger, ret; simpl.
  rewrite readDb_writeDb; simpl. eexists. split; [done|]. simpl.
  split; [done|]. split; [done|].
  rewrite <- falsy_empty. unfold or_null.
  destruct (falsy (req_senderName body)) eqn:F.
  - split; [done|]. split; [done|]. split; [|done]. by intros [].
  - split; [|split; [|done]].
    + intros Hs. rewrite Hs in F. by vm_compute in F.
    + split; [|done]. intros Hs. rewrite Hs in F. by vm_compute in F.
Qed.

(** ** The browser session *)

Lemma same_handles_refl s : same_handles s s.
Proof. by split. Qed.

Lemma same_handles_trans s1 s2 s3 :
  same_handles s1 s2 → same_handles s2 s3 → same_handles s1 s3.
Proof. unfold same_handles. intros [? ?] [? ?]. split; congruence. Qed.

Lemma same_handles_bind {A B} (m : M A) (k : A → M B) :
  keeps same_handles m → (∀ a, keeps same_handles (k a)) →
  keeps same_handles (bind m k).
Proof. apply keeps_bind, same_handles_trans. Qed.

Lemma same_handles_try_catch {A} (m : M A) (h : error → M A) :
  keeps same_handles m → (∀ e, keeps same_handles (h e)) →
  keeps same_handles (try_catch m h).
Proof. apply keeps_try_catch, same_handles_trans. Qed.

Lemma same_handles_pure {A} (m : M A) :
  (∀ s, (m s).1 = s) → keeps same_handles m.
Proof. intros E s. rewrite E. apply same_handles_refl. Qed.

Lemma same_handles_ret {A} (a : A) : keeps same_handles (ret a).
Proof. by apply same_handles_pure. Qed.

Lemma same_handles_throw {A} e : keeps same_handles (@throw _ _ A e).
Proof. by apply same_handles_pure. Qed.

Lemma same_handles_settle {A} (r : outcome A) :
  keeps same_handles (settle r).
Proof. by apply same_handles_pure. Qed.

Lemma same_handles_read_db : keeps same_handles read_db.
Proof. by apply same_handles_pure. Qed.

Lemma same_handles_logger l : keeps same_handles (logger l).
Proof. by intros s. Qed.

Lemma same_handles_write_db d : keeps same_handles (write_db d).
Proof. by intros s. Qed.

Lemma same_handles_on_browser {A} (op : world → world * outcome A) :
  keeps same_handles (on_browser op).
Proof. intros s. unfold on_browser. by destruct (op (web s)). Qed.

Lemma same_handles_on_page {A} (op : world → world * outcome A) :
  keeps same_handles (on_page op).
Proof.
  intros s. unfold on_page. destruct (page s) eqn:E.
  - apply same_handles_on_browser.
  - apply same_handles_refl.
Qed.

Hint Resolve same_handles_bind same_handles_try_catch same_handles_ret
  same_handles_throw same_handles_settle same_handles_read_db
  same_handles_logger same_handles_write_db same_handles_on_browser
  same_handles_on_page : keeps.

Lemma same_handles_loadCookiesFromEnv :
  keeps same_handles (loadCookiesFromEnv env).
Proof.
  unfold loadCookiesFromEnv. destruct (COOKIES_BASE64 env) as [cb|];
    [destruct (decide (cb = EmptyString))|]; eauto 10 with keeps.
Qed.

Lemma loadCookiesFromEnv_returns s :
  ∃ b, (loadCookiesFromEnv env s).2 = Return b.
Proof.
  unfold loadCookiesFromEnv. destruct (COOKIES_BASE64 env) as [cb|];
    [destruct (decide (cb = EmptyString))|]; try by eexists.
  unfold try_catch, bind, settle, logger, ret.
  destruct (decode_cookies cb) as [cs|e]; [|by eexists].
  destruct (on_page (setCookie cs) s) as [s1 [[]|e]]; by eexists.
Qed.

(** X6: [loadCookiesFromEnv] never throws and never touches the queue
    file or the variables [browser] and [page]; with [COOKIES_BASE64]
    unset or empty it returns [false] and does nothing at all; it
    returns [true] only when the variable decoded to cookies and
    [page.setCookie] accepted them. *)
Theorem cookies_are_optional s :
  (∃ b, (loadCookiesFromEnv env s).2 = Return b)
  ∧ disk (loadCookiesFromEnv env s).1 = disk s
  ∧ same_handles s (loadCookiesFromEnv env s).1
  ∧ (falsy (COOKIES_BASE64 env) = true →
     loadCookiesFromEnv env s = (s, Return false))
  ∧ ((loadCookiesFromEnv env s).2 = Return true →
     ∃ cb cs,
       COOKIES_BASE64 env = Some cb
       ∧ decode_cookies cb = Return cs
       ∧ page s = true
       ∧ (setCookie cs (web s)).2 = Return tt).
Proof.
  split; [apply loadCookiesFromEnv_returns|].
  split; [apply same_disk_loadCookiesFromEnv|].
  split; [apply same_handles_loadCookiesFromEnv|].
  unfold loadCookiesFromEnv, falsy.
  destruct (COOKIES_BASE64 env) as [cb|]; [|by split].
  destruct (decide (cb = EmptyString)) as [->|Hne]; [by split|].
  split; [intros E; apply bool_decide_eq_true in E; by destruct Hne|].
  unfold try_catch, bind, settle, logger, ret, on_page, on_browser.
  destruct (decode_cookies cb) as [cs|e] eqn:D; [|done].
  destruct (page s) eqn:P; [|done].
  destruct (setCookie cs (web s)) as [w [[]|e]] eqn:SC; [|done].
  intros _. exists cb, cs. by rewrite SC.
Qed.

(** [ensureBrowser], step by step, when no browser is open yet. *)
Lemma ensureBrowser_fresh s :
  browser s = false →
  match launch (negb (bool_decide (HEADLESS env = Some "false"))) (web s) with
  | (w1, Throw e) =>
      ensureBrowser env s = (Sys (disk s) false (page s) w1 (log s), Throw e)
  | (w1, Return _) =>
      match newPage w1 with
      | (w2, Throw e) =>
          ensureBrowser env s
          = (Sys (disk s) true (page s) w2 (log s), Throw e)
      | (w2, Return _) =>
          match setUserAgent userAgent w2 with
          | (w3, Throw e) =>
              ensureBrowser env s = (Sys (disk s) true true w3 (log s), Throw e)
          | (w3, Return _) =>
              ∃ s', ensureBrowser env s = (s', Return tt)
                    ∧ browser s' = true ∧ page s' = true
                    ∧ disk s' = disk s
          end
      end
  end.
Proof.
  intros Hb. unfold ensureBrowser, bind, get_browser, on_browser, set_browser,
    set_page. cbn [fst snd web disk browser page log]. rewrite Hb.
  destruct (launch _ (web s)) as [w1 [[]|e]];
    cbn [fst snd web disk browser page log]; [|by rewrite Hb].
  destruct (newPage w1) as [w2 [[]|e]];
    cbn [fst snd web disk browser page log]; [|done].
  assert (Eua : on_page (setUserAgent userAgent)
                  (Sys (disk s) true true w2 (log s))
                = let '(w, r) := setUserAgent userAgent w2 in
                  (Sys (disk s) true true w (log s), r)) by reflexivity.
  rewrite Eua. clear Eua.
  destruct (setUserAgent userAgent w2) as [w3 [[]|e]];
    cbn [fst snd web disk browser page log]; [|done].
  set (s3 := Sys (disk s) true true w3 (log s)).
  destruct (loadCookiesFromEnv_returns s3) as [b Hb'].
  pose proof (same_handles_loadCookiesFromEnv s3) as [Hbr Hpg].
  pose proof (same_disk_loadCookiesFromEnv s3) as Hd.
  destruct (loadCookiesFromEnv env s3) as [s4 r]; simpl in *. subst r.
  assert (Hg : keeps same_handles
    (try_catch (on_page (goto "https://www.messenger.com/"))
       (λ e, logger (WarnGotoMessenger e)))) by eauto with keeps.
  assert (Hgd : keeps same_disk
    (try_catch (on_page (goto "https://www.messenger.com/"))
       (λ e, logger (WarnGotoMessenger e)))) by eauto with keeps.
  specialize (Hg s4). specialize (Hgd s4). unfold same_disk in *.
  assert (Hr : (try_catch (on_page (goto "https://www.messenger.com/"))
       (λ e, logger (WarnGotoMessenger e)) s4).2 = Return tt).
  { unfold try_catch, logger.
    by destruct (on_page (goto "https://www.messenger.com/") s4)
      as [s5 [[]|e]]. }
  destruct (try_catch _ _ s4) as [s5 r]; simpl in *. subst r.
  exists s5. unfold ret. destruct Hg as [Hg1 Hg2].
  split; [done|]. split; [congruence|]. split; congruence.
Qed.


(** X8: a failure of the first navigation to messenger.com or of the
    cookie loading does not make [ensureBrowser] fail: when the
    launch, [newPage] and [setUserAgent] succeed, it returns with
    [browser] and [page] set and the queue file untouched. *)
Theorem ensureBrowser_survives_goto_and_cookies s w1 w2 w3 :
  browser s = false →
  launch (negb (bool_decide (HEADLESS env = Some "false"))) (web s)
  = (w1, Return tt) →
  newPage w1 = (w2, Return tt) →
  setUserAgent userAgent w2 = (w3, Return tt) →
  ∃ s', ensureBrowser env s = (s', Return tt)
        ∧ browser s' = true ∧ page s' = true ∧ disk s' = disk s.
Proof.
  intros Hb L N U. pose proof (ensureBrowser_fresh s Hb) as F.
  by rewrite L, N, U in F.
Qed.

(** X9: when the launch succeeds and [newPage] throws, [ensureBrowser]
    throws with [browser] set and [page] still [null]; from then on no
    call opens a page: every cycle that finds a queued message ends in
    the outer [catch] with the [TypeError] of the call on [null], logs
    that one line and changes nothing else, so no message is ever
    delivered or marked. *)
Theorem failed_newPage_blocks_worker clock s w1 w2 e :
  browser s = false →
  page s = false →
  launch (negb (bool_decide (HEADLESS env = Some "false"))) (web s)
  = (w1, Return tt) →
  newPage w1 = (w2, Throw e) →
  ensureBrowser env s = (Sys (disk s) true false w2 (log s), Throw e)
  ∧ ∀ s', browser s' = true → page s' = false →
      queued_now (readDb (disk s')) ≠ [] →
      processQueueOnce env clock s'
      = (Sys (disk s') true false (web s')
           (log s' ++ [ErrorCycle TypeError_null]),
         Return (Caught TypeError_null)).
Proof.
  intros Hb Hp L N. split.
  - pose proof (ensureBrowser_fresh s Hb) as F. by rewrite L, N, Hp in F.
  - intros s' Hb' Hp' Hq.
    unfold processQueueOnce, try_catch, bind, read_db; simpl.
    fold (queued_now (readDb (disk s'))).
    destruct (decide (length (queued_now (readDb (disk s'))) = 0)) as [E|NE].
    { by apply nil_length_inv in E. }
    unfold ensureBrowser, bind, get_browser; simpl. rewrite Hb'.
    unfold ret, probe_login. rewrite Hp'. unfold logger; simpl.
    by rewrite Hb', Hp'.
Qed.

(** ** One delivery *)

Lemma find_composer_returns sels : ∀ s,
  ∃ c, (find_composer sels s).2 = Return c.
Proof.
  induction sels as [|sel rest IH]; intros s; simpl; [by eexists|].
  unfold bind, try_catch, ret.
  destruct (on_page (query sel) s) as [s1 [[c|]|e]]; simpl;
    [by eexists|apply IH..].
Qed.

Lemma no_delivery_find_composer sels : keeps no_delivery (find_composer sels).
Proof.
  induction sels as [|sel rest IH]; simpl; [eauto with keeps|].
  apply no_delivery_bind; eauto with keeps.
  by intros [c|]; eauto with keeps.
Qed.

Lemma same_handles_find_composer sels :
  keeps same_handles (find_composer sels).
Proof.
  induction sels as [|sel rest IH]; simpl; [eauto with keeps|].
  apply same_handles_bind; eauto with keeps.
  by intros [c|]; eauto with keeps.
Qed.

(** X10: the search for the composer never throws, a rejected
    [page.$] counting as not found; the selectors are tried in order
    and the search stops at the first one that gives an element, so the
    selectors after it are not tried; while [page] is [null] it finds
    nothing and changes nothing. *)
Theorem find_composer_first_match l1 l2 s :
  (∃ c, (find_composer (l1 ++ l2) s).2 = Return c)
  ∧ find_composer (l1 ++ l2) s
    = match find_composer l1 s with
      | (s1, Return (Some c)) => (s1, Return (Some c))
      | (s1, Return None) => find_composer l2 s1
      | (s1, Throw e) => (s1, Throw e)
      end
  ∧ (page s = false → find_composer (l1 ++ l2) s = (s, Return None)).
Proof.
  split; [apply find_composer_returns|]. split.
  - revert s. induction l1 as [|sel rest IH]; intros s; [done|].
    cbn [app find_composer]. unfold bind, try_catch, ret.
    destruct (on_page (query sel) s) as [s1 [[c|]|e]]; simpl; [done|apply IH..].
  - generalize (l1 ++ l2)%list. intros l. clear l1 l2. revert s.
    induction l as [|sel rest IH]; intros s Hp; [done|].
    cbn [find_composer]. unfold bind, try_catch, ret, on_page.
    rewrite Hp. simpl. by apply IH.
Qed.

(** What [sendMessageToThread] does, await by await. *)
Lemma sendMessageToThread_unfold to body s :
  sendMessageToThread to body s =
    match on_page (goto ("https://www.messenger.com/t/" ++ to))
            (logger (InfoSending ("https://www.messenger.com/t/" ++ to)) s).1
    with
    | (s1, Throw e) => (s1, Throw e)
    | (s1, Return _) =>
        match on_page (waitForTimeout 1500) s1 with
        | (s2, Throw e) => (s2, Throw e)
        | (s2, Return _) =>
            match find_composer selectors s2 with
            | (s3, Throw e) => (s3, Throw e)
            | (s3, Return None) => (s3, Throw no_composer)
            | (s3, Return (Some c)) =>
                match on_browser (focus c) s3 with
                | (s4, Throw e) => (s4, Throw e)
                | (s4, Return _) =>
                    match on_page (keyboard_type body) s4 with
                    | (s5, Throw e) => (s5, Throw e)
                    | (s5, Return _) =>
                        match on_page (keyboard_press "Enter") s5 with
                        | (s6, Throw e) => (s6, Throw e)
                        | (s6, Return _) =>
                            match on_page (waitForTimeout 1200) s6 with
                            | (s7, Throw e) => (s7, Throw e)
                            | (s7, Return _) =>
                                ((logger InfoTyped s7).1, Return true)
                            end
                        end
                    end
                end
            end
        end
    end.
Proof.
  unfold sendMessageToThread, bind, throw, ret.
  change (logger (InfoSending ("https://www.messenger.com/t/" ++ to)) s)
    with ((logger (InfoSending ("https://www.messenger.com/t/" ++ to)) s).1,
          @Return unit tt).
  cbv beta iota.
  destruct (on_page (goto _) _) as [s1 [[]|e]]; [|done].
  destruct (on_page (waitForTimeout 1500) s1) as [s2 [[]|e]]; [|done].
  destruct (find_composer selectors s2) as [s3 [[c|]|e]]; [|done..].
  destruct (on_browser (focus c) s3) as [s4 [[]|e]]; [|done].
  destruct (on_page (keyboard_type body) s4) as [s5 [[]|e]]; [|done].
  destruct (on_page (keyboard_press "Enter") s5) as [s6 [[]|e]]; [|done].
  by destruct (on_page (waitForTimeout 1200) s6) as [s7 [[]|e]].
Qed.

Lemma sending_urls_app l1 l2 :
  sending_urls (l1 ++ l2) = (sending_urls l1 ++ sending_urls l2)%list.
Proof.
  induction l1 as [|e l1 IH]; [done|]. destruct e; simpl; by rewrite ?IH.
Qed.

Lemma sending_urls_quiet l :
  forallb (λ e, negb (is_sending e)) l = true → sending_urls l = [].
Proof.
  induction l as [|e l IH]; [done|]. simpl.
  intros [He Hl]%andb_true_iff. destruct e; try done; by apply IH.
Qed.

Lemma no_delivery_sending_urls s s' :
  no_delivery s s' → sending_urls (log s') = sending_urls (log s).
Proof.
  intros (l & -> & Hl).
  by rewrite sending_urls_app, (sending_urls_quiet _ Hl), app_nil_r.
Qed.

Lemma same_handles_sendMessageToThread to body :
  keeps same_handles (sendMessageToThread to body).
Proof.
  unfold sendMessageToThread.
  do 3 (apply same_handles_bind; [eauto with keeps|intros _]).
  apply same_handles_bind; [apply same_handles_find_composer|].
  intros [c|]; eauto 15 with keeps.
Qed.

(** One more awaited call that logs no [Sending message] line. *)
Ltac quiet_step E m st s' r :=
  let E' := fresh "E" in
  let K := fresh "K" in
  assert (K : keeps no_delivery m)
    by eauto using no_delivery_find_composer with keeps;
  pose proof (no_delivery_sending_urls _ _ (K st)) as E'; clear K;
  rewrite E in E'; clear E;
  destruct (m st) as [s' r]; cbn [fst snd] in E'; rename E' into E.

Lemma sendMessageToThread_sending_urls to body s :
  sending_urls (log (sendMessageToThread to body s).1)
  = (sending_urls (log s) ++ [("https://www.messenger.com/t/" ++ to)%string])%list.
Proof.
  rewrite sendMessageToThread_unfold.
  set (url := "https://www.messenger.com/t/" ++ to).
  assert (E : sending_urls (log (logger (InfoSending url) s).1)
              = (sending_urls (log s) ++ [url])%list).
  { simpl. by rewrite sending_urls_app. }
  generalize dependent ((logger (InfoSending url) s).1). intros s0 E.
  quiet_step E (on_page (goto url)) s0 s1 r1.
  destruct r1 as [[]|e]; [|done].
  quiet_step E (on_page (waitForTimeout 1500)) s1 s2 r2.
  destruct r2 as [[]|e]; [|done].
  quiet_step E (find_composer selectors) s2 s3 r3.
  destruct r3 as [[c|]|e]; [|done..].
  quiet_step E (on_browser (focus c)) s3 s4 r4.
  destruct r4 as [[]|e]; [|done].
  quiet_step E (on_page (keyboard_type body)) s4 s5 r5.
  destruct r5 as [[]|e]; [|done].
  quiet_step E (on_page (keyboard_press "Enter")) s5 s6 r6.
  destruct r6 as [[]|e]; [|done].
  quiet_step E (on_page (waitForTimeout 1200)) s6 s7 r7.
  destruct r7 as [[]|e]; [|done].
  simpl. by rewrite sending_urls_app, E, app_nil_r.
Qed.

(** X11: a delivery never touches the queue file nor the variables
    [browser] and [page]; it logs exactly one [Sending message] line,
    with the URL [https://www.messenger.com/t/] followed by the thread
    identifier; it returns nothing but [true], and only after the text
    was typed and Enter pressed (the line [Message typed & Entered] is
    then the last one logged); while [page] is [null] it throws the
    [TypeError] right after the [Sending message] line. *)
Theorem delivery_effects to body s :
  disk (sendMessageToThread to body s).1 = disk s
  ∧ same_handles s (sendMessageToThread to body s).1
  ∧ sending_urls (log (sendMessageToThread to body s).1)
    = (sending_urls (log s)
       ++ [("https://www.messenger.com/t/" ++ to)%string])%list
  ∧ (∀ b, (sendMessageToThread to body s).2 = Return b →
       b = true ∧ last (log (sendMessageToThread to body s).1) = Some InfoTyped)
  ∧ (page s = false →
     sendMessageToThread to body s
     = ((logger (InfoSending ("https://www.messenger.com/t/" ++ to)) s).1,
        Throw TypeError_null)).
Proof.
  split; [apply same_disk_sendMessageToThread|].
  split; [apply same_handles_sendMessageToThread|].
  split; [apply sendMessageToThread_sending_urls|].
  rewrite sendMessageToThread_unfold. split.
  - intros b.
    destruct (on_page (goto _) _) as [s1 [[]|e]]; [|done].
    destruct (on_page (waitForTimeout 1500) s1) as [s2 [[]|e]]; [|done].
    destruct (find_composer selectors s2) as [s3 [[c|]|e]]; [|done..].
    destruct (on_browser (focus c) s3) as [s4 [[]|e]]; [|done].
    destruct (on_page (keyboard_type body) s4) as [s5 [[]|e]]; [|done].
    destruct (on_page (keyboard_press "Enter") s5) as [s6 [[]|e]]; [|done].
    destruct (on_page (waitForTimeout 1200) s6) as [s7 [[]|e]]; [|done].
    simpl. intros [= <-]. split; [done|]. apply last_snoc.
  - intros Hp. unfold on_page at 1. simpl. by rewrite Hp.
Qed.

(** ** Write-backs on any store *)

Lemma same_letter_refl m : same_letter m m.
Proof. by repeat split. Qed.

Lemma same_letter_trans m1 m2 m3 :
  same_letter m1 m2 → same_letter m2 m3 → same_letter m1 m3.
Proof.
  unfold same_letter. intros (?&?&?&?&?) (?&?&?&?&?).
  repeat split; congruence.
Qed.

Lemma same_letter_mark_sent now m : same_letter m (mark_sent now m).
Proof. by repeat split. Qed.

Lemma same_letter_mark_failed e now m : same_letter m (mark_failed e now m).
Proof. by repeat split. Qed.

Lemma Forall2_same_letter_refl (l : list message) : Forall2 same_letter l l.
Proof. induction l; constructor; [apply same_letter_refl|done]. Qed.

Lemma Forall2_same_letter_trans (l1 l2 l3 : list message) :
  Forall2 same_letter l1 l2 → Forall2 same_letter l2 l3 →
  Forall2 same_letter l1 l3.
Proof. apply Forall2_trans. exact same_letter_trans. Qed.

Lemma Forall2_same_letter_ids (l1 l2 : list message) :
  Forall2 same_letter l1 l2 → id <$> l2 = id <$> l1.
Proof.
  induction 1 as [|m1 m2 l1 l2 (Hid & _) _ IH]; [done|]. csimpl.
  by rewrite Hid, IH.
Qed.

Lemma write_back_found change x s i target :
  list_find (λ m, id m = x) (messages (readDb (disk s))) = Some (i, target) →
  write_back change x s
  = (Sys (writeDb (Db (<[i := change target]> (messages (readDb (disk s))))
                     (pairings (readDb (disk s)))) (disk s))
         (browser s) (page s) (web s) (log s),
     Return tt).
Proof. intros E. unfold write_back, bind, read_db, write_db. by rewrite E. Qed.

Lemma list_find_present x (l : list message) :
  x ∈ id <$> l → ∃ i target, list_find (λ m, id m = x) l = Some (i, target).
Proof.
  intros (m & Hx & Hm)%list_elem_of_fmap.
  destruct (list_find_elem_of (λ m, id m = x) l m Hm) as [[i t] E]; [done|].
  by exists i, t.
Qed.

Lemma write_back_effects change x s :
  (∀ t, same_letter t (change t)) →
  x ∈ id <$> messages (readDb (disk s)) →
  Forall2 same_letter (messages (readDb (disk s)))
    (messages (readDb (disk (write_back change x s).1)))
  ∧ pairings (readDb (disk (write_back change x s).1))
    = pairings (readDb (disk s))
  ∧ writes (disk (write_back change x s).1) = S (writes (disk s))
  ∧ log (write_back change x s).1 = log s
  ∧ same_handles s (write_back change x s).1.
Proof.
  intros Hch Hx. destruct (list_find_present _ _ Hx) as (i & target & E).
  rewrite (write_back_found _ _ _ _ _ E); simpl. rewrite readDb_writeDb; simpl.
  split; [|by repeat split].
  apply list_find_Some in E as (Hi & _ & _).
  rewrite <- (list_insert_id _ _ _ Hi) at 1.
  apply Forall2_insert; [apply Forall2_same_letter_refl|apply Hch].
Qed.

Lemma attempt_unfold now msg s :
  attempt now msg s =
    match sendMessageToThread (toThreadId msg) (text msg) s with
    | (s1, Return _) => write_back (mark_sent now) (id msg) s1
    | (s1, Throw e) =>
        write_back (mark_failed e now) (id msg)
          (logger (ErrorSendFailed e (id msg)) s1).1
    end.
Proof.
  unfold attempt, try_catch, bind.
  destruct (sendMessageToThread _ _ s) as [s1 [b|e]]; [|done].
  pose proof (write_back_returns (mark_sent now) (id msg) s1) as E.
  by destruct (write_back _ _ s1) as [s2 [[]|e]].
Qed.

(** What one turn of the loop does to a store that holds a record with
    the identifier of the message. *)
Lemma attempt_effects now msg s :
  id msg ∈ id <$> messages (readDb (disk s)) →
  Forall2 same_letter (messages (readDb (disk s)))
    (messages (readDb (disk (attempt now msg s).1)))
  ∧ pairings (readDb (disk (attempt now msg s).1))
    = pairings (readDb (disk s))
  ∧ writes (disk (attempt now msg s).1) = S (writes (disk s))
  ∧ sending_urls (log (attempt now msg s).1)
    = (sending_urls (log s) ++ [threadUrl_of msg])%list
  ∧ same_handles s (attempt now msg s).1.
Proof.
  intros Hx. rewrite attempt_unfold.
  pose proof (same_disk_sendMessageToThread (toThreadId msg) (text msg) s)
    as Hd.
  pose proof (same_handles_sendMessageToThread (toThreadId msg) (text msg) s)
    as Hh.
  pose proof (sendMessageToThread_sending_urls (toThreadId msg) (text msg) s)
    as Hu.
  unfold same_disk in Hd.
  destruct (sendMessageToThread _ _ s) as [s1 [b|e]]; cbn [fst] in *.
  - destruct (write_back_effects (mark_sent now) (id msg) s1)
      as (F & P & W & L & Hh'); [apply same_letter_mark_sent|by rewrite Hd|].
    rewrite Hd in *. split; [done|]. split; [done|]. split; [done|].
    split; [by rewrite L|]. by eapply same_handles_trans.
  - set (s2 := (logger (ErrorSendFailed e (id msg)) s1).1).
    destruct (write_back_effects (mark_failed e now) (id msg) s2)
      as (F & P & W & L & Hh');
      [apply same_letter_mark_failed|by subst s2; simpl; rewrite Hd|].
    subst s2; simpl in *. rewrite Hd in *.
    split; [done|]. split; [done|]. split; [done|]. split.
    + by rewrite L, sending_urls_app, Hu, app_nil_r.
    + eapply same_handles_trans; [exact Hh|]. exact Hh'.
Qed.

(** X12: a delivery changes the first record that carries the
    identifier of the message, whatever the status of that record, and
    nothing else: the other records and the pairings are as they were,
    the file is written once, and of the record itself only [status],
    [lastError] and the time stamps can differ.  After a delivery that
    returned the record is [sent] with [sentAt] the time of the
    write-back, [lastError] and [attemptedAt] being left alone; after
    one that threw it is [failed] with [attemptedAt] that time and
    [lastError] the message of the error, [String(err)] when the message
    is empty, [sentAt] being left alone. *)
Theorem attempt_marks_first_record now msg s i target :
  messages (readDb (disk s)) !! i = Some target →
  id target = id msg →
  (∀ j y, messages (readDb (disk s)) !! j = Some y → j < i → id y ≠ id msg) →
  ∃ target',
    messages (readDb (disk (attempt now msg s).1))
    = <[i := target']> (messages (readDb (disk s)))
    ∧ pairings (readDb (disk (attempt now msg s).1))
      = pairings (readDb (disk s))
    ∧ writes (disk (attempt now msg s).1) = S (writes (disk s))
    ∧ same_letter target target'
    ∧ match (sendMessageToThread (toThreadId msg) (text msg) s).2 with
      | Return _ =>
          status target' = sent
          ∧ sentAt target' = Some now
          ∧ lastError target' = lastError target
          ∧ attemptedAt target' = attemptedAt target
      | Throw e =>
          status target' = failed
          ∧ attemptedAt target' = Some now
          ∧ lastError target'
            = Some (if decide (err_message e = EmptyString)
                    then String_of e else err_message e)
          ∧ sentAt target' = sentAt target
      end.
Proof.
  intros Hi Hid Hfirst.
  assert (E : list_find (λ m, id m = id msg) (messages (readDb (disk s)))
              = Some (i, target)).
  { apply list_find_Some. split; [done|]. split; [done|]. by eauto. }
  rewrite attempt_unfold.
  pose proof (same_disk_sendMessageToThread (toThreadId msg) (text msg) s)
    as Hd. unfold same_disk in Hd.
  destruct (sendMessageToThread _ _ s) as [s1 [b|e]]; cbn [fst snd] in *.
  - exists (mark_sent now target). rewrite <- Hd in E.
    rewrite (write_back_found _ _ _ _ _ E); simpl.
    rewrite readDb_writeDb, Hd; simpl.
    split; [done|]. split; [done|]. split; [done|].
    split; [apply same_letter_mark_sent|done].
  - exists (mark_failed e now target).
    set (s2 := (logger (ErrorSendFailed e (id msg)) s1).1).
    assert (Hd2 : disk s2 = disk s) by (by subst s2).
    rewrite <- Hd2 in E.
    rewrite (write_back_found _ _ _ _ _ E); simpl.
    rewrite readDb_writeDb, Hd; simpl.
    split; [done|]. split; [done|]. split; [done|].
    split; [apply same_letter_mark_failed|done].
Qed.

(** X13: when the thread page loads and none of the three selectors
    gives an element, the delivery throws [Composer not found on thread
    page] without typing anything, and the record of the message is
    marked [failed] with exactly that text as [lastError]. *)
Theorem missing_composer_is_recorded now msg s s1 s2 s3 i target :
  on_page (goto (threadUrl_of msg)) (logger (InfoSending (threadUrl_of msg)) s).1
  = (s1, Return tt) →
  on_page (waitForTimeout 1500) s1 = (s2, Return tt) →
  find_composer selectors s2 = (s3, Return None) →
  list_find (λ m, id m = id msg) (messages (readDb (disk s)))
  = Some (i, target) →
  sendMessageToThread (toThreadId msg) (text msg) s = (s3, Throw no_composer)
  ∧ ∃ target',
      messages (readDb (disk (attempt now msg s).1))
      = <[i := target']> (messages (readDb (disk s)))
      ∧ status target' = failed
      ∧ lastError target' = Some "Composer not found on thread page"
      ∧ attemptedAt target' = Some now.
Proof.
  intros G W F E. unfold threadUrl_of in G.
  assert (S : sendMessageToThread (toThreadId msg) (text msg) s
              = (s3, Throw no_composer)).
  { by rewrite sendMessageToThread_unfold, G, W, F. }
  split; [done|]. exists (mark_failed no_composer now target).
  pose proof (same_disk_sendMessageToThread (toThreadId msg) (text msg) s)
    as Hd. unfold same_disk in Hd. rewrite S in Hd. simpl in Hd.
  rewrite attempt_unfold, S.
  set (s4 := (logger (ErrorSendFailed no_composer (id msg)) s3).1).
  assert (Hd4 : disk s4 = disk s) by (by subst s4).
  rewrite <- Hd4 in E. rewrite (write_back_found _ _ _ _ _ E); simpl.
  by rewrite readDb_writeDb, Hd.
Qed.

(** ** The whole cycle on any store *)

Lemma for_each_effects clock q : ∀ k s,
  (∀ m, m ∈ q → id m ∈ id <$> messages (readDb (disk s))) →
  Forall2 same_letter (messages (readDb (disk s)))
    (messages (readDb (disk (for_each clock k q s).1)))
  ∧ pairings (readDb (disk (for_each clock k q s).1))
    = pairings (readDb (disk s))
  ∧ writes (disk (for_each clock k q s).1) = writes (disk s) + length q
  ∧ sending_urls (log (for_each clock k q s).1)
    = (sending_urls (log s) ++ (threadUrl_of <$> q))%list
  ∧ same_handles s (for_each clock k q s).1.
Proof.
  induction q as [|msg rest IH]; intros k s Hq.
  - simpl. split; [apply Forall2_same_letter_refl|].
    rewrite app_nil_r. repeat split; try done; lia.
  - cbn [for_each]. unfold bind.
    pose proof (attempt_returns (clock k) msg s) as Hret.
    destruct (attempt_effects (clock k) msg s) as (F & P & W & U & Hh).
    { apply Hq, elem_of_cons. by left. }
    destruct (attempt (clock k) msg s) as [s1 [[]|e]]; cbn [fst snd] in *;
      [|done].
    destruct (IH (S k) s1) as (F' & P' & W' & U' & Hh').
    { intros m Hm. rewrite (Forall2_same_letter_ids _ _ F).
      apply Hq, elem_of_cons. by right. }
    split; [by eapply Forall2_same_letter_trans|].
    split; [congruence|]. split; [rewrite W', W; simpl; lia|].
    split; [|by eapply same_handles_trans].
    rewrite U', U. csimpl. by rewrite <- app_assoc.
Qed.

Lemma queued_now_present d m :
  m ∈ queued_now d → id m ∈ id <$> messages d.
Proof. intros [_ Hm]%queued_now_elem. by apply list_elem_of_fmap_2. Qed.

Lemma prologue_returns s : ∃ r, (prologue env s).2 = Return r.
Proof.
  pose proof (prologue_cases s) as PC. cbv zeta in PC.
  destruct PC as [[_ P]|[(_ & err & s1 & _ & P)
    |[(_ & s1 & s2 & _ & _ & P)|(_ & s1 & s2 & _ & _ & P)]]];
    rewrite P; by eexists.
Qed.

Lemma processQueueOnce_returns clock s :
  ∃ e, (processQueueOnce env clock s).2 = Return e.
Proof.
  rewrite processQueueOnce_unfold.
  destruct (prologue_returns s) as [r Hr].
  destruct (prologue env s) as [s1 [[e|q]|err]]; simpl in *;
    [by eexists..|done].
Qed.

(** X14: [processQueueOnce] never throws, whatever the browser does:
    what is thrown inside it ends in the [catch] of the loop or in the
    outer [catch], and the call returns through one of its four
    exits. *)
Theorem processQueueOnce_never_throws clock s :
  ∃ e, (processQueueOnce env clock s).2 = Return e.
Proof.
  rewrite processQueueOnce_unfold.
  pose proof (for_each_returns clock) as Hloop.
  destruct (prologue env s) as [s1 [[e|q]|err]] eqn:P; simpl; eauto.
  pose proof (prologue_cases s) as PC. cbv zeta in PC.
  destruct PC as [[_ P']|[(_ & err' & s1' & _ & P')
    |[(_ & s1' & s2 & _ & _ & P')|(_ & s1' & s2 & _ & _ & P')]]];
    congruence.
Qed.

(** X15: when no record has status [queued] a cycle does nothing at
    all: no browser is launched, nothing is logged and the file is not
    written.  In particular records that are [failed] are not tried
    again. *)
Theorem idle_cycle_does_nothing clock s :
  (∀ m, m ∈ messages (readDb (disk s)) → status m ≠ queued) →
  processQueueOnce env clock s = (s, Return NothingQueued).
Proof.
  intros Hnone. rewrite processQueueOnce_unfold.
  pose proof (prologue_cases s) as PC. cbv zeta in PC.
  assert (Hq : queued_now (readDb (disk s)) = []).
  { apply elem_of_nil_inv. intros m [Hs Hm]%queued_now_elem.
    by apply (Hnone m). }
  destruct PC as [[_ P]|[(Hne & _)|[(Hne & _)|(Hne & _)]]];
    [by rewrite P|done..].
Qed.

(** X16: a cycle, however it ends, keeps the records in place and in
    number, changes none of [id], [toThreadId], [text], [senderName]
    and [createdAt], and leaves the pairings alone. *)
Theorem cycle_keeps_letters clock s :
  Forall2 same_letter (messages (readDb (disk s)))
    (messages (readDb (disk (processQueueOnce env clock s).1)))
  ∧ length (messages (readDb (disk (processQueueOnce env clock s).1)))
    = length (messages (readDb (disk s)))
  ∧ pairings (readDb (disk (processQueueOnce env clock s).1))
    = pairings (readDb (disk s)).
Proof.
  assert (Forall2 same_letter (messages (readDb (disk s)))
            (messages (readDb (disk (processQueueOnce env clock s).1)))
          ∧ pairings (readDb (disk (processQueueOnce env clock s).1))
            = pairings (readDb (disk s))) as [F P].
  { rewrite processQueueOnce_unfold. pose proof (prologue_disk s) as Hd.
    destruct (prologue env s) as [s1 [[e|q]|err]] eqn:Pr; cbn [fst] in *;
      try (rewrite Hd; split; [apply Forall2_same_letter_refl|done]).
    apply prologue_snapshot in Pr. fold (queued_now (readDb (disk s))) in Pr.
    subst q.
    destruct (for_each_effects clock (queued_now (readDb (disk s))) 0 s1)
      as (F & P & _).
    { intros m Hm. rewrite Hd. by apply queued_now_present. }
    rewrite Hd in *. by split. }
  split; [done|]. split; [|done]. symmetry. by eapply Forall2_length.
Qed.

(** X17: a cycle that runs from its start to its end with no request
    and no other cycle in between, and that gets to its loop, writes the
    queue file exactly once for every record that was queued when it
    started, one write after each delivery; when it leaves before the
    loop it does not write the file at all.  Whatever runs in between,
    one turn of the loop writes the file once when a record with the
    identifier of its message is in the file at the write-back, and not
    at all when none is. *)
Theorem cycle_writes_once_per_message clock s :
  (∃ e, (processQueueOnce env clock s).2 = Return e
     ∧ match e with
       | Drained =>
           writes (disk (processQueueOnce env clock s).1)
           = writes (disk s) + length (queued_now (readDb (disk s)))
       | _ => disk (processQueueOnce env clock s).1 = disk s
       end)
  ∧ ∀ now msg s',
      writes (disk (attempt now msg s').1)
      = if decide (id msg ∈ id <$> messages (readDb (disk s')))
        then S (writes (disk s')) else writes (disk s').
Proof.
  split.
  2:{ intros now msg s'. destruct (decide _) as [Hin|Hnin].
      - by destruct (attempt_effects now msg s' Hin) as (_ & _ & W & _).
      - by rewrite attempt_missing. }
  rewrite processQueueOnce_unfold. pose proof (prologue_disk s) as Hd.
  pose proof (prologue_cases s) as PC. cbv zeta in PC.
  destruct PC as [[_ P]|[(_ & err & s1 & _ & P)
    |[(_ & s1 & s2 & _ & _ & P)|(_ & s1 & s2 & _ & _ & P)]]];
    rewrite P in *; cbn [fst snd] in *; try (eexists; split; [done|done]).
  exists Drained. split; [done|].
  destruct (for_each_effects clock (queued_now (readDb (disk s))) 0 s2)
    as (_ & _ & W & _).
  { intros m Hm. rewrite Hd. by apply queued_now_present. }
  by rewrite W, Hd.
Qed.

(** X18: a cycle that gets to its loop starts one delivery for every
    record that was queued when it started, in the order of the queue
    file and each to the thread of its record, whether or not earlier
    deliveries of the cycle failed; a cycle that leaves before the loop
    starts none. *)
Theorem cycle_delivers_in_order clock s :
  ∃ e, (processQueueOnce env clock s).2 = Return e
    ∧ sending_urls (log (processQueueOnce env clock s).1)
      = (sending_urls (log s)
         ++ match e with
            | Drained => threadUrl_of <$> queued_now (readDb (disk s))
            | _ => []
            end)%list.
Proof.
  rewrite processQueueOnce_unfold. pose proof (prologue_disk s) as Hd.
  pose proof (no_delivery_sending_urls _ _ (no_delivery_prologue s)) as Hu.
  pose proof (prologue_cases s) as PC. cbv zeta in PC.
  destruct PC as [[_ P]|[(_ & err & s1 & _ & P)
    |[(_ & s1 & s2 & _ & _ & P)|(_ & s1 & s2 & _ & _ & P)]]];
    rewrite P in *; cbn [fst snd] in *;
    try (eexists; split; [done|]; by rewrite app_nil_r).
  exists Drained. split; [done|].
  destruct (for_each_effects clock (queued_now (readDb (disk s))) 0 s2)
    as (_ & _ & _ & U & _).
  { intros m Hm. rewrite Hd. by apply queued_now_present. }
  by rewrite U, Hu.
Qed.

(** X19: when [page.evaluate] rejects while the login is probed, the
    cycle takes it for "not logged in": it logs the warning and leaves
    through the login check, not through the outer [catch]; the queue
    file is not written and no delivery is started. *)
Theorem rejected_probe_counts_as_logged_out clock s s1 w e :
  queued_now (readDb (disk s)) ≠ [] →
  ensureBrowser env s = (s1, Return tt) →
  page s1 = true →
  evaluate_probe (web s1) = (w, Throw e) →
  processQueueOnce env clock s
  = (Sys (disk s) (browser s1) true w (log s1 ++ [WarnNotLoggedIn]),
     Return NotLoggedIn)
  ∧ sending_urls (log (processQueueOnce env clock s).1) = sending_urls (log s).
Proof.
  intros Hq EB Hp EP.
  pose proof (same_disk_ensureBrowser s) as Hd. unfold same_disk in Hd.
  rewrite EB in Hd. simpl in Hd.
  assert (PL : probe_login s1
               = (Sys (disk s) (browser s1) true w (log s1), Return false)).
  { unfold probe_login, try_catch, on_browser, ret. by rewrite Hp, EP, Hd. }
  assert (P : prologue env s
              = (Sys (disk s) (browser s1) true w (log s1 ++ [WarnNotLoggedIn]),
                 Return (inl NotLoggedIn))).
  { pose proof (prologue_cases s) as PC. cbv zeta in PC.
    destruct PC as [[Hq0 _]|[(_ & err & s1' & Hsu & _)
      |[(_ & s1' & s2' & EB' & PL' & P)|(_ & s1' & s2' & EB' & PL' & _)]]].
    - done.
    - destruct Hsu as [E|(s0 & E & E')]; congruence.
    - rewrite EB in EB'. injection EB' as <-. rewrite PL in PL'.
      injection PL' as <-. by rewrite P.
    - rewrite EB in EB'. injection EB' as <-. by rewrite PL in PL'. }
  assert (E : processQueueOnce env clock s
               = (Sys (disk s) (browser s1) true w
                    (log s1 ++ [WarnNotLoggedIn]), Return NotLoggedIn)).
  { by rewrite processQueueOnce_unfold, P. }
  split; [done|].
  pose proof (no_delivery_sending_urls _ _ (no_delivery_prologue s)) as Hu.
  by rewrite E, <- Hu, P.
Qed.

(** ** The worker's timer *)

(** X20: [startWorker] runs one cycle at once and then hands its
    period to [setInterval] exactly once, whatever that first cycle
    met; a call while the worker is running does nothing, so that
    calling it again registers no second timer and runs no second
    cycle. *)
Theorem startWorker_starts_once ms clock clock' w :
  workerRunning w = false →
  startWorker env ms clock w
  = (Worker (processQueueOnce env clock (core w)).1 true
       (intervals w ++ [ms]) (started w ++ [ms]),
     Return tt)
  ∧ startWorker env ms clock' (startWorker env ms clock w).1
    = ((startWorker env ms clock w).1, Return tt).
Proof.
  intros Hw.
  assert (E : startWorker env ms clock w
              = (Worker (processQueueOnce env clock (core w)).1 true
                   (intervals w ++ [ms]) (started w ++ [ms]),
                 Return tt)).
  { unfold startWorker. rewrite Hw.
    destruct (processQueueOnce_returns clock (core w)) as [e He].
    destruct (processQueueOnce env clock (core w)) as [s1 r]; simpl in *.
    by subst r. }
  by rewrite E.
Qed.

(** ** Pairing codes and random numbers *)

Lemma lower_upper_digit36 c :
  is_digit36 c = true → lower_char (upper_char c) = c.
Proof. destruct c as [[] [] [] [] [] [] [] []]; by vm_compute. Qed.

Lemma toUpperCase_inj s1 : ∀ s2,
  all_chars is_digit36 s1 = true → all_chars is_digit36 s2 = true →
  toUpperCase s1 = toUpperCase s2 → s1 = s2.
Proof.
  induction s1 as [|c1 s1 IH]; intros [|c2 s2]; simpl; try done.
  intros [Hc1 Hs1]%andb_true_iff [Hc2 Hs2]%andb_true_iff [= Hc Hs].
  f_equal; [|by apply IH].
  by rewrite <- (lower_upper_digit36 c1), <- (lower_upper_digit36 c2), Hc.
Qed.

Lemma length_take_chars_min n : ∀ s,
  String.length (take_chars n s) = Nat.min n (String.length s).
Proof.
  induction n as [|n IH]; intros [|c s]; simpl; try done.
  by rewrite IH.
Qed.

Lemma fraction_digits_digit36 r :
  radix36_fraction r = true → all_chars is_digit36 (fraction_digits r) = true.
Proof.
  intros [->|(ds & -> & Hds)]%radix36_fraction_inv; done.
Qed.

(** X21: the pairing code has as many characters as the random number
    has digits after [0.], up to six, so exactly six when there are six
    or more; and two random numbers give the same code exactly when
    their first six digits are the same. *)
Theorem pairing_code_first_six r1 r2 :
  radix36_fraction r1 = true →
  radix36_fraction r2 = true →
  String.length (pairing_code r1)
  = Nat.min 6 (String.length (fraction_digits r1))
  ∧ (pairing_code r1 = pairing_code r2
     ↔ take_chars 6 (fraction_digits r1) = take_chars 6 (fraction_digits r2)).
Proof.
  intros H1 H2.
  change (pairing_code r1) with (toUpperCase (take_chars 6 (fraction_digits r1))).
  change (pairing_code r2) with (toUpperCase (take_chars 6 (fraction_digits r2))).
  split; [by rewrite length_toUpperCase, length_take_chars_min|].
  split; [|by intros ->].
  apply toUpperCase_inj;
    by apply all_chars_take_chars, fraction_digits_digit36.
Qed.

End Properties.

(** * [readDb] on text of any shape *)

Section Values.
Context `{JSON_values}.

(** On a file that holds a database, or that does not parse, [readDb]
    is [readDb_value]. *)
Lemma readDb_value_typed fs :
  (∀ c v, queue_json fs = Content c → JSON_parse_value c ≠ Some (Other v)) →
  readDb_value fs = Shaped (readDb fs).
Proof.
  intros Hshape. unfold readDb_value, readDb, readFileSync.
  destruct (queue_json fs) as [| |c] eqn:E; [done..|].
  destruct (JSON_parse_value c) as [[d|v]|] eqn:P.
  - by rewrite (JSON_parse_shaped c d P).
  - by destruct (Hshape c v).
  - by rewrite (JSON_parse_rejects c P).
Qed.

(** C7, as far as the code goes: [readDb] returns the empty database
    [{ messages: [], pairings: {} }] when the queue file is not there,
    when it cannot be read and when its text is not JSON; text that is
    JSON is returned as [JSON.parse] gives it, whatever its shape. *)
Theorem readDb_returns_what_parses fs :
  (queue_json fs = Missing
   ∨ queue_json fs = Unreadable
   ∨ (∃ c, queue_json fs = Content c ∧ JSON_parse_value c = None) →
   readDb_value fs = Shaped empty_db)
  ∧ ∀ c v,
      queue_json fs = Content c → JSON_parse_value c = Some v →
      readDb_value fs = v.
Proof.
  unfold readDb_value, readFileSync. split.
  - intros [E|[E|(c & E & Hc)]]; rewrite E; [done..|]. by rewrite Hc.
  - intros c v E Hc. by rewrite E, Hc.
Qed.

End Values.

(** * The properties at work on the scripted environment *)


Lemma not_logged_in_aborts_witness :
  processQueueOnce no_env noon (fresh_process hello_db (Script true false true))
  = ((logger WarnNotLoggedIn
        (probe_login
           (ensureBrowser no_env
              (fresh_process hello_db (Script true false true))).1).1).1,
     Return NotLoggedIn)
  ∧ disk (processQueueOnce no_env noon
            (fresh_process hello_db (Script true false true))).1
    = disk (fresh_process hello_db (Script true false true))
  ∧ messages (readDb (disk (processQueueOnce no_env noon
                (fresh_process hello_db (Script true false true))).1))
    = messages (readDb (disk (fresh_process hello_db (Script true false true))))
  ∧ no_delivery (fresh_process hello_db (Script true false true))
      (processQueueOnce no_env noon
         (fresh_process hello_db (Script true false true))).1.
Proof.
  apply (@not_logged_in_aborts plain_json scripted no_env noon
           (fresh_process hello_db (Script true false true))
           (ensureBrowser no_env
              (fresh_process hello_db (Script true false true))).1).
  - vm_compute. discriminate.
  - reflexivity.
  - reflexivity.
Defined.

Lemma later_cycle_spares_settled_witness :
  messages (readDb (disk (proc (exec no_env Tick
    (Node (fresh_process mixed_db (Script true true true)) [] ∅))))) !! 0
  = Some delivered
  ∧ ∀ q,
      cycles (exec no_env Tick
        (Node (fresh_process mixed_db (Script true true true)) [] ∅))
      = ([] ++ [q])%list →
      q = queued_now (readDb (disk (fresh_process mixed_db
                                      (Script true true true))))
      ∧ Forall (λ p, status p = queued) q
      ∧ (id delivered ∉ id <$> q)
      ∧ ∀ tr now j r,
          messages (readDb (disk (proc (run no_env tr (exec no_env Tick
            (Node (fresh_process mixed_db (Script true true true)) [] ∅))))))
            !! j = Some r →
          id r = id delivered →
          messages (readDb (disk (proc
            (exec no_env (Resume 0 now)
               (run no_env tr (exec no_env Tick
                  (Node (fresh_process mixed_db (Script true true true))
                     [] ∅))))))) !! j
          = Some r.
Proof.
  apply (@later_cycle_spares_settled plain_json scripted no_env
           (Node (fresh_process mixed_db (Script true true true)) [] ∅)
           0 delivered).
  - vm_compute. apply NoDup_cons. split; [|apply NoDup_singleton].
    intros Hin. apply list_elem_of_singleton in Hin. discriminate.
  - reflexivity.
  - vm_compute. discriminate.
Defined.

Lemma settled_records_untouched_witness :
  messages (readDb (disk (processQueueOnce no_env noon
    (fresh_process mixed_db (Script true true true))).1)) !! 0
  = Some delivered
  ∧ ∀ s1 q,
      prologue no_env (fresh_process mixed_db (Script true true true))
      = (s1, Return (inr q)) →
      Forall (λ p, status p = queued) q.
Proof.
  apply (@settled_records_untouched plain_json scripted no_env noon
           (fresh_process mixed_db (Script true true true)) 0 delivered).
  - vm_compute. apply NoDup_cons. split; [|apply NoDup_singleton].
    intros Hin. apply list_elem_of_singleton in Hin. discriminate.
  - reflexivity.
  - vm_compute. discriminate.
Defined.

Lemma write_back_skips_missing_witness :
  write_back (mark_sent "2024-01-01T12:00:00.000Z") (id hello) blank
  = (blank, Return tt)
  ∧ disk (attempt "2024-01-01T12:00:00.000Z" hello blank).1 = disk blank.
Proof.
  apply (@write_back_skips_missing plain_json scripted
           (mark_sent "2024-01-01T12:00:00.000Z")
           "2024-01-01T12:00:00.000Z" hello blank).
  vm_compute. apply not_elem_of_nil.
Defined.

Lemma readDb_self_heals_witness :
  readDb (@Filesystem plain_json (@Content plain_json None) 3) = empty_db
  ∧ messages (readDb (@Filesystem plain_json (@Content plain_json None) 3))
    = []
  ∧ pairings (readDb (@Filesystem plain_json (@Content plain_json None) 3))
    = ∅.
Proof.
  apply (@readDb_self_heals plain_json).
  right; right. exists None. split; reflexivity.
Defined.

Lemma pairing_code_shape_witness :
  all_chars is_upper36 (pairing_code "0.4fzyo82mvyr") = true
  ∧ (String.length (pairing_code "0.4fzyo82mvyr") ≤ 6)%nat
  ∧ (∃ r', radix36_fraction r' = true
           ∧ (String.length (pairing_code r') < 6)%nat)
  ∧ (∃ r', radix36_fraction r' = true ∧ pairing_code r' = EmptyString).
Proof. apply (pairing_code_shape "0.4fzyo82mvyr"). reflexivity. Defined.

Lemma stamps_invariant_witness :
  Forall stamps_ok (messages (readDb (disk (proc delivered_in_turn)))).
Proof.
  apply (@stamps_invariant plain_json scripted no_env delivered_in_turn).
  unfold delivered_in_turn, submitted.
  apply reachable_exec; [apply reachable_exec; [apply reachable_exec|]|].
  - apply reachable_start. reflexivity.
  - apply not_elem_of_empty.
  - reflexivity.
  - exact I.
Defined.

(** Both timers have fired before the message is attempted: a run of
    the process, [uuidv4] having handed out one identifier. *)
Lemma two_cycles_runs w : runs no_env (two_cycles w).
Proof.
  unfold two_cycles.
  apply runs_exec; [apply runs_exec; [apply runs_exec|]|].
  - apply runs_start. reflexivity.
  - apply not_elem_of_empty.
  - exact I.
  - exact I.
Qed.


(** C4 as it is stated fails when cycles overlap: the first cycle
    delivers the message and sets [sentAt], the second one, which took
    the message while it was still queued, finds no composer and sets
    [attemptedAt] on the same record. *)
Lemma overlap_leaves_both_stamps :
  runs no_env failed_by_second
  ∧ ¬ Forall stamps_ok (messages (readDb (disk (proc failed_by_second)))).
Proof.
  split.
  { unfold failed_by_second, sent_by_first.
    apply runs_exec; [apply runs_exec; [apply two_cycles_runs|]|]; exact I. }
  intros Hall. apply Forall_inv in Hall. vm_compute in Hall.
  destruct Hall as [[_ E]|[E _]]; discriminate.
Qed.

(** C5 as it is stated fails when cycles overlap: the record is
    [sent] once the first cycle has written back, and the second
    cycle, started after the first, then turns it into [failed]. *)
Lemma overlap_rewrites_sent_record :
  runs no_env failed_by_second
  ∧ ∃ r1 r2,
      messages (readDb (disk (proc sent_by_first))) = [r1]
      ∧ status r1 = sent
      ∧ messages (readDb (disk (proc failed_by_second))) = [r2]
      ∧ id r2 = id r1
      ∧ status r2 = failed
      ∧ r2 ≠ r1.
Proof.
  split.
  { unfold failed_by_second, sent_by_first.
    apply runs_exec; [apply runs_exec; [apply two_cycles_runs|]|]; exact I. }
  eexists _, _. split; [vm_compute; reflexivity|]. split; [reflexivity|].
  split; [vm_compute; reflexivity|]. split; [reflexivity|].
  split; [reflexivity|]. discriminate.
Qed.

(** C7 as it is stated fails on content that is corrupt and still
    parses: from a file that holds the text [null], [readDb] returns
    [null] and not the empty database. *)
Lemma readDb_returns_null :
  @readDb_value loose_json loose_values null_file = Other JNull
  ∧ @readDb_value loose_json loose_values null_file ≠ Shaped empty_db.
Proof. split; [reflexivity|discriminate]. Qed.

(** C8 as it is stated fails: the second call draws the code [I] of
    the first call and the record under [I] no longer holds the time of
    the first call. *)
Lemma pairing_overwritten :
  pairings (readDb (disk paired_once)) !! "I"
  = Some (Pairing "2024-01-01T00:00:00.000Z")
  ∧ pairings (readDb (disk paired_twice)) !! "I"
    = Some (Pairing "2024-06-01T00:00:00.000Z")
  ∧ pairings (readDb (disk paired_twice)) !! "I"
    ≠ pairings (readDb (disk paired_once)) !! "I".
Proof.
  unfold paired_twice, paired_once. rewrite !api_pair_pairings.
  change (pairing_code "0.i") with "I".
  destruct (decide ("I" = "I")); [|done]. by repeat split.
Qed.

(** The queue is cleared while a cycle delivers: the write-back finds
    no record and the file keeps the two writes of the submission and
    of the clearing. *)
Example cleared_under_way_store :
  messages (readDb (disk (proc cleared_under_way))) = []
  ∧ writes (disk (proc cleared_under_way)) = 2
  ∧ status <$> messages (readDb (disk (proc delivered_in_turn))) = [sent].
Proof. by vm_compute. Qed.

(** The delivery succeeds: the record is [sent] and carries [sentAt]. *)
Example delivery_succeeds :
  (processQueueOnce no_env noon
     (fresh_process hello_db (Script true true true))).2 = Return Drained
  ∧ messages (readDb (disk (processQueueOnce no_env noon
      (fresh_process hello_db (Script true true true))).1))
    = [mark_sent "2024-01-01T12:00:00.000Z" hello].
Proof. by vm_compute. Qed.

(** No selector finds the composer: the record is [failed] and
    [lastError] is the message of the error thrown. *)
Example composer_not_found :
  (lastError <$> messages (readDb (disk (processQueueOnce no_env noon
      (fresh_process hello_db (Script true true false))).1)))
  = [Some "Composer not found on thread page"]
  ∧ (status <$> messages (readDb (disk (processQueueOnce no_env noon
      (fresh_process hello_db (Script true true false))).1)))
    = [failed].
Proof. by vm_compute. Qed.

(** The browser does not start: the cycle ends in its outer [catch]
    and the record stays [queued]. *)
Example browser_does_not_start :
  (processQueueOnce no_env noon
     (fresh_process hello_db (Script false true true))).2
  = Return (Caught launch_failure)
  ∧ disk (processQueueOnce no_env noon
            (fresh_process hello_db (Script false true true))).1
    = disk (fresh_process hello_db (Script false true true)).
Proof. by vm_compute. Qed.

(** One submission: the answer carries the identifier and the listing
    shows one queued record. *)
Example submit_then_list :
  (api_send (SendBody (Some "12345") (Some "hello") None) "id-1"
     "2024-01-01T00:00:00.000Z" blank).2
  = Return (JsonQueued "id-1")
  ∧ (api_queue (proc submitted)).2 = Return (JsonMessages [hello]).
Proof. by vm_compute. Qed.

(** An empty [text] is turned down and nothing is written. *)
Example empty_text_rejected :
  api_send (SendBody (Some "12345") (Some EmptyString) None) "id-1"
    "2024-01-01T00:00:00.000Z" blank
  = (blank, Return (Status400 "toThreadId and text required")).
Proof. reflexivity. Qed.

(** * The further properties at work *)

Lemma handlers_overwrite_broken_file_witness :
  (falsy (req_toThreadId hello_body) || falsy (req_text hello_body) = false →
   ∃ item,
     id item = "id-1"
     ∧ readDb (disk (api_send hello_body "id-1" "2024-01-01T00:00:00.000Z"
                       broken).1)
       = Db [item] ∅)
  ∧ readDb (disk (api_pair "0.i" "2024-01-01T00:00:00.000Z" broken).1)
    = Db [] {[pairing_code "0.i" := Pairing "2024-01-01T00:00:00.000Z"]}.
Proof.
  apply (@handlers_overwrite_broken_file plain_json scripted).
  right. exists None. split; reflexivity.
Defined.

Lemma send_stores_record_witness :
  ∃ item,
    messages (readDb (disk (api_send hello_body "id-1"
                              "2024-01-01T00:00:00.000Z" blank).1))
    = (messages (readDb (disk blank)) ++ [item])%list
    ∧ createdAt item = "2024-01-01T00:00:00.000Z"
    ∧ lastError item = None
    ∧ senderName item ≠ Some EmptyString
    ∧ (senderName item = None ↔ empty (req_senderName hello_body))
    ∧ (¬ empty (req_senderName hello_body) →
       senderName item = req_senderName hello_body)
    ∧ pairings (readDb (disk (api_send hello_body "id-1"
                                "2024-01-01T00:00:00.000Z" blank).1))
      = pairings (readDb (disk blank))
    ∧ writes (disk (api_send hello_body "id-1"
                      "2024-01-01T00:00:00.000Z" blank).1)
      = S (writes (disk blank)).
Proof.
  apply (@send_stores_record plain_json scripted). reflexivity.
Defined.

Lemma ensureBrowser_survives_goto_and_cookies_witness :
  ∃ s',
    ensureBrowser cookie_env (faulty_process hello_db (Faults true false))
    = (s', Return tt)
    ∧ browser s' = true ∧ page s' = true
    ∧ disk s' = disk (faulty_process hello_db (Faults true false)).
Proof.
  apply (@ensureBrowser_survives_goto_and_cookies plain_json faulty cookie_env
           (faulty_process hello_db (Faults true false))
           (Faults true false) (Faults true false) (Faults true false));
    reflexivity.
Defined.

Lemma failed_newPage_blocks_worker_witness :
  ensureBrowser no_env (faulty_process hello_db (Faults false true))
  = (@Sys plain_json faulty
       (disk (faulty_process hello_db (Faults false true))) true false
       (Faults false true) (log (faulty_process hello_db (Faults false true))),
     Throw no_page)
  ∧ ∀ s' : @sys plain_json faulty,
      browser s' = true → page s' = false →
      queued_now (readDb (disk s')) ≠ [] →
      processQueueOnce no_env noon s'
      = (@Sys plain_json faulty (disk s') true false (web s')
           (log s' ++ [ErrorCycle TypeError_null]),
         Return (Caught TypeError_null)).
Proof.
  apply (@failed_newPage_blocks_worker plain_json faulty no_env noon
           (faulty_process hello_db (Faults false true))
           (Faults false true) (Faults false true) no_page);
    reflexivity.
Defined.

Lemma attempt_marks_first_record_witness :
  ∃ target',
    messages (readDb (disk (attempt "2024-01-01T12:00:00.000Z" delivered
                              (fresh_process mixed_db (Script true true true))).1))
    = <[0 := target']>
        (messages (readDb (disk (fresh_process mixed_db (Script true true true)))))
    ∧ pairings (readDb (disk (attempt "2024-01-01T12:00:00.000Z" delivered
                                (fresh_process mixed_db (Script true true true))).1))
      = pairings (readDb (disk (fresh_process mixed_db (Script true true true))))
    ∧ writes (disk (attempt "2024-01-01T12:00:00.000Z" delivered
                      (fresh_process mixed_db (Script true true true))).1)
      = S (writes (disk (fresh_process mixed_db (Script true true true))))
    ∧ same_letter delivered target'
    ∧ match (sendMessageToThread (toThreadId delivered) (text delivered)
               (fresh_process mixed_db (Script true true true))).2 with
      | Return _ =>
          status target' = sent
          ∧ sentAt target' = Some "2024-01-01T12:00:00.000Z"
          ∧ lastError target' = lastError delivered
          ∧ attemptedAt target' = attemptedAt delivered
      | Throw e =>
          status target' = failed
          ∧ attemptedAt target' = Some "2024-01-01T12:00:00.000Z"
          ∧ lastError target'
            = Some (if decide (err_message e = EmptyString)
                    then String_of e else err_message e)
          ∧ sentAt target' = sentAt delivered
      end.
Proof.
  apply (@attempt_marks_first_record plain_json scripted
           "2024-01-01T12:00:00.000Z" delivered
           (fresh_process mixed_db (Script true true true)) 0 delivered).
  - reflexivity.
  - reflexivity.
  - intros j y _ Hj. lia.
Defined.

Lemma missing_composer_is_recorded_witness :
  sendMessageToThread (toThreadId hello) (text hello)
    (open_process hello_db (Script true true false) [])
  = (open_process hello_db (Script true true false)
       [InfoSending "https://www.messenger.com/t/12345"],
     Throw no_composer)
  ∧ ∃ target',
      messages (readDb (disk (attempt "2024-01-01T12:00:00.000Z" hello
                                (open_process hello_db (Script true true false)
                                   [])).1))
      = <[0 := target']>
          (messages (readDb (disk (open_process hello_db
                                     (Script true true false) []))))
      ∧ status target' = failed
      ∧ lastError target' = Some "Composer not found on thread page"
      ∧ attemptedAt target' = Some "2024-01-01T12:00:00.000Z".
Proof.
  apply (@missing_composer_is_recorded plain_json scripted
           "2024-01-01T12:00:00.000Z" hello
           (open_process hello_db (Script true true false) [])
           (open_process hello_db (Script true true false)
              [InfoSending "https://www.messenger.com/t/12345"])
           (open_process hello_db (Script true true false)
              [InfoSending "https://www.messenger.com/t/12345"])
           (open_process hello_db (Script true true false)
              [InfoSending "https://www.messenger.com/t/12345"])
           0 hello); reflexivity.
Defined.

Lemma idle_cycle_does_nothing_witness :
  processQueueOnce no_env noon
    (fresh_process settled_db (Script true true true))
  = (fresh_process settled_db (Script true true true), Return NothingQueued).
Proof.
  apply (@idle_cycle_does_nothing plain_json scripted no_env noon
           (fresh_process settled_db (Script true true true))).
  intros m Hm. apply list_elem_of_singleton in Hm. subst m. discriminate.
Defined.

Lemma startWorker_starts_once_witness :
  startWorker no_env 1000 noon idle_worker
  = (@Worker plain_json scripted
       (processQueueOnce no_env noon (core idle_worker)).1 true
       (intervals idle_worker ++ [1000]) (started idle_worker ++ [1000]),
     Return tt)
  ∧ startWorker no_env 1000 noon (startWorker no_env 1000 noon idle_worker).1
    = ((startWorker no_env 1000 noon idle_worker).1, Return tt).
Proof.
  apply (@startWorker_starts_once plain_json scripted no_env 1000 noon noon
           idle_worker).
  reflexivity.
Defined.

Lemma pairing_code_first_six_witness :
  String.length (pairing_code "0.4fzyo82mvyr")
  = Nat.min 6 (String.length (fraction_digits "0.4fzyo82mvyr"))
  ∧ (pairing_code "0.4fzyo82mvyr" = pairing_code "0.4fzyo8zzz"
     ↔ take_chars 6 (fraction_digits "0.4fzyo82mvyr")
       = take_chars 6 (fraction_digits "0.4fzyo8zzz")).
Proof.
  apply (pairing_code_first_six "0.4fzyo82mvyr" "0.4fzyo8zzz"); reflexivity.
Defined.

Lemma rejected_probe_counts_as_logged_out_witness :
  processQueueOnce no_env noon (faulty_process hello_db (Faults true false))
  = (@Sys plain_json faulty
       (disk (faulty_process hello_db (Faults true false)))
       (browser (ensureBrowser no_env
                   (faulty_process hello_db (Faults true false))).1)
       true (Faults true false)
       (log (ensureBrowser no_env
               (faulty_process hello_db (Faults true false))).1
        ++ [WarnNotLoggedIn]),
     Return NotLoggedIn)
  ∧ sending_urls (log (processQueueOnce no_env noon
                         (faulty_process hello_db (Faults true false))).1)
    = sending_urls (log (faulty_process hello_db (Faults true false))).
Proof.
  apply (@rejected_probe_counts_as_logged_out plain_json faulty no_env noon
           (faulty_process hello_db (Faults true false))
           (ensureBrowser no_env
              (faulty_process hello_db (Faults true false))).1
           (Faults true false) net_down).
  - vm_compute. discriminate.
  - reflexivity.
  - reflexivity.
  - reflexivity.
Defined.
